(** * Display pipeline of conducteensy: frame pool, paged driver, display glue

    Shallow embedding of
      - framebuffer.h          (template class FrameBuffer),
      - page_display_driver.h  (template class PagedDisplayDriver),
      - ILI9341_Driver.cpp     (the page sink used when USE_ILI9341_DISPLAY),
      - display.h              (display::Flush, display::Update and the
                                GRAPHICS_BEGIN_FRAME / GRAPHICS_END_FRAME macros),
    followed by the properties of the frame hand-off that the design
    document states about them.

    Conventions.  A [size_t] is a [Z] in [0, 2^size_bits); every increment
    and decrement of the source is followed by its wrap-around.  A byte is a
    [Z] in [0, 256).  A [uint8_t *] is [option ptr]: [None] is [nullptr] and
    [Some (Ptr s o)] is the address of [frames_[s][o]]. *)

From Stdlib Require Import ZArith Lia List Bool.
From stdpp Require Import base numbers list.

Local Open Scope Z_scope.

(** ** The compilation target *)

(** Widths of the two integer types the code relies on.  The firmware is
    built for the Teensy 4.1 (32-bit ARM), where both are 32 bits wide. *)
Class Target := {
  size_bits : Z;    (* width of size_t *)
  fast8_bits : Z    (* width of uint_fast8_t *)
}.

Definition wrap `{Target} (z : Z) : Z := z mod 2 ^ size_bits.
Definition to_uint_fast8 `{Target} (z : Z) : Z := z mod 2 ^ fast8_bits.

#[export] Instance Teensy41 : Target := {| size_bits := 32; fast8_bits := 32 |}.

(** ** Pointers into the frame pool *)

Record ptr := Ptr { slot : Z; offset : Z }.

(** [p + n] on a [uint8_t *]. *)
Definition ptr_add (p : ptr) (n : Z) : ptr := Ptr (slot p) (offset p + n).

(** The pool's storage, [uint8_t frames_[kNumFrames][kFrameSize]]. *)
Abbreviation memory := (list (list Z)).

(** [p[i]]; reading outside the array is undefined in the source and is
    given the value 0 here. *)
Definition load (mem : memory) (p : ptr) (i : Z) : Z :=
  default 0 (mem !! Z.to_nat (slot p) ≫= λ f, f !! Z.to_nat (offset p + i)).

(** The [n] bytes starting at [p]. *)
Definition load_bytes (mem : memory) (p : ptr) (n : Z) : list Z :=
  load mem p <$> seqZ 0 n.

(** [p[i] = b]; a store outside the array leaves the storage as it is. *)
Definition store (mem : memory) (p : ptr) (i : Z) (b : Z) : memory :=
  alter (λ f, <[Z.to_nat (offset p + i) := b]> f) (Z.to_nat (slot p)) mem.

(** The whole slot a pointer points into. *)
Definition slot_bytes (mem : memory) (s : Z) : list Z :=
  default [] (mem !! Z.to_nat s).

(** ** framebuffer.h *)

Module FrameBuffer.

(** The template parameters [<frame_size, num_frames>]. *)
Class Params := { kFrameSize : Z; kNumFrames : Z }.

Record t := Build {
  frames_ : memory;
  write_frame_ : Z;
  read_frame_ : Z;
  readable_count_ : Z
}.

Section Methods.
Context `{Target} `{Params}.

Definition Init (_ : t) : t :=
  {| frames_ := replicate (Z.to_nat kNumFrames)
                          (replicate (Z.to_nat kFrameSize) 0);
     write_frame_ := 0;
     read_frame_ := 0;
     readable_count_ := 0 |}.

(** Not [const] in the source: the object is threaded through. *)
Definition writeable_frame (fb : t) : option ptr * t :=
  if readable_count_ fb >=? kNumFrames then (None, fb)
  else (Some (Ptr (write_frame_ fb) 0), fb).

Definition writeable (fb : t) : bool :=
  readable_count_ fb <? kNumFrames.

Definition written (fb : t) : t :=
  {| frames_ := frames_ fb;
     write_frame_ := wrap (write_frame_ fb + 1) mod kNumFrames;
     read_frame_ := read_frame_ fb;
     readable_count_ := wrap (readable_count_ fb + 1) |}.

Definition readable_frame (fb : t) : option ptr * t :=
  if readable_count_ fb =? 0 then (None, fb)
  else (Some (Ptr (read_frame_ fb) 0), fb).

Definition readable (fb : t) : bool :=
  readable_count_ fb >? 0.

Definition read (fb : t) : t :=
  {| frames_ := frames_ fb;
     write_frame_ := write_frame_ fb;
     read_frame_ := wrap (read_frame_ fb + 1) mod kNumFrames;
     readable_count_ := wrap (readable_count_ fb - 1) |}.

(** The pool after its clients have written to the storage. *)
Definition with_frames (fb : t) (mem : memory) : t :=
  {| frames_ := mem;
     write_frame_ := write_frame_ fb;
     read_frame_ := read_frame_ fb;
     readable_count_ := readable_count_ fb |}.

(** *** Sequences of commits and releases *)

Inductive op := Written | Read.

Definition op_eqb (a b : op) : bool :=
  match a, b with
  | Written, Written | Read, Read => true
  | _, _ => false
  end.

(** The guard under which a call is legal. *)
Definition guard (o : op) (fb : t) : bool :=
  match o with
  | Written => writeable fb
  | Read => readable fb
  end.

Definition exec (o : op) (fb : t) : t :=
  match o with
  | Written => written fb
  | Read => read fb
  end.

(** Runs a sequence; [None] as soon as a call is made against its guard. *)
Fixpoint run (ops : list op) (fb : t) : option t :=
  match ops with
  | [] => Some fb
  | o :: rest => if guard o fb then run rest (exec o fb) else None
  end.

(** How often [o] occurs in a sequence. *)
Fixpoint calls (o : op) (ops : list op) : Z :=
  match ops with
  | [] => 0
  | x :: rest => (if op_eqb o x then 1 else 0) + calls o rest
  end.

(** The ring invariant: the write index is [readable_count_] slots
    ahead of the read index. *)
Record ring (fb : t) : Prop := {
  ring_read : 0 <= read_frame_ fb < kNumFrames;
  ring_count : 0 <= readable_count_ fb <= kNumFrames;
  ring_write :
    write_frame_ fb = (read_frame_ fb + readable_count_ fb) mod kNumFrames;
  ring_frames : length (frames_ fb) = Z.to_nat kNumFrames
}.

(** The calls of a sequence one after the other, whether their guards hold
    or not (the methods themselves check nothing). *)
Definition apply (ops : list op) (fb : t) : t :=
  fold_left (λ fb o, exec o fb) ops fb.

End Methods.
End FrameBuffer.

(** ** Producer and consumer of the pool

    The way the pool is used by its two clients (display.h): the producer
    probes [writeable_frame], draws through the pointer it got and commits
    with [written]; the consumer peeks with [readable_frame], drains the
    slot and releases it with [read].  The two handles and the two logs are
    bookkeeping of the clients, not fields of the pool. *)

Module Client.
Import FrameBuffer.

Inductive action :=
| AcquireWritable              (* frame = writeable_frame() *)
| Draw (i : Z) (b : Z)         (* frame[i] = b *)
| Commit                       (* written() *)
| PeekReadable                 (* frame = readable_frame() *)
| Release.                     (* the slot is drained: read() *)

Record t := Build {
  pool : FrameBuffer.t;
  whandle : option ptr;              (* the producer's pointer *)
  rhandle : option ptr;              (* the consumer's pointer *)
  committed : list (Z * list Z);     (* slot and bytes of every commit *)
  released : list (Z * list Z)       (* slot and bytes of every release *)
}.

Section Protocol.
Context `{Target} `{Params}.

Definition start (fb : FrameBuffer.t) : t :=
  {| pool := Init fb; whandle := None; rhandle := None;
     committed := []; released := [] |}.

(** One action of a client; [None] when the action is not legal:
    drawing or committing without a pointer from [writeable_frame],
    drawing outside the frame, releasing without a peeked slot. *)
Definition step (a : action) (c : t) : option t :=
  match a with
  | AcquireWritable =>
      let '(p, fb) := writeable_frame (pool c) in
      Some {| pool := fb; whandle := p; rhandle := rhandle c;
              committed := committed c; released := released c |}
  | Draw i b =>
      match whandle c with
      | Some p =>
          if (0 <=? i) && (i <? kFrameSize) then
            Some {| pool := with_frames (pool c)
                              (store (frames_ (pool c)) p i b);
                    whandle := whandle c; rhandle := rhandle c;
                    committed := committed c; released := released c |}
          else None
      | None => None
      end
  | Commit =>
      match whandle c with
      | Some p =>
          Some {| pool := written (pool c);
                  whandle := None; rhandle := rhandle c;
                  committed := committed c ++
                    [(slot p, slot_bytes (frames_ (pool c)) (slot p))];
                  released := released c |}
      | None => None
      end
  | PeekReadable =>
      let '(q, fb) := readable_frame (pool c) in
      Some {| pool := fb; whandle := whandle c; rhandle := q;
              committed := committed c; released := released c |}
  | Release =>
      match rhandle c with
      | Some q =>
          Some {| pool := read (pool c);
                  whandle := whandle c; rhandle := None;
                  committed := committed c;
                  released := released c ++
                    [(slot q, slot_bytes (frames_ (pool c)) (slot q))] |}
      | None => None
      end
  end.

Fixpoint run (acts : list action) (c : t) : option t :=
  match acts with
  | [] => Some c
  | a :: rest =>
      match step a c with
      | Some c' => run rest c'
      | None => None
      end
  end.

(** The [k]-th published and not yet released slot. *)
Definition queued_slot (fb : FrameBuffer.t) (k : Z) : Z :=
  (read_frame_ fb + k) mod kNumFrames.

(** The published frames that wait for the consumer, oldest first. *)
Definition pending (fb : FrameBuffer.t) : list (Z * list Z) :=
  (λ k, (queued_slot fb k, slot_bytes (frames_ fb) (queued_slot fb k)))
    <$> seqZ 0 (readable_count_ fb).

(** What the clients may rely on between any two actions. *)
Record coherent (c : t) : Prop := {
  coh_ring : ring (pool c);
  coh_whandle : ∀ p, whandle c = Some p →
    p = Ptr (write_frame_ (pool c)) 0 ∧ readable_count_ (pool c) < kNumFrames;
  coh_rhandle : ∀ q, rhandle c = Some q →
    q = Ptr (read_frame_ (pool c)) 0 ∧ 0 < readable_count_ (pool c);
  coh_fifo : committed c = released c ++ pending (pool c)
}.

End Protocol.
End Client.

(** ** The page sink

    The static interface a display driver offers to [PagedDisplayDriver]
    (the template parameter [display_driver]).  [Dev] is the driver's static
    state; [SendPage] reads the page through [data] from the pool's
    storage.  SH1106_128x64_driver.h only declares the SH1106 driver, so
    the layers above are stated for any driver; ILI9341_Driver.cpp gives
    the one instance whose code is at hand. *)

Class display_driver (Dev : Type) := {
  kFrameSize : Z;
  kNumPages : Z;
  kPageSize : Z;
  driver_Init : Dev → Dev;
  driver_Flush : Dev → Dev;
  SendPage : Z → ptr → memory → Dev → bool * Dev
}.

(** What a transfer step did, most recent call first. *)
Inductive call :=
| CallUpdate                                  (* display::Update() entered *)
| CallSendPage (index : Z) (data : ptr) (bytes : list Z) (accepted : bool).

Definition is_update (c : call) : bool :=
  match c with CallUpdate => true | CallSendPage _ _ _ _ => false end.

(** The pages handed to the sink in a stretch of the trace. *)
Fixpoint sent_pages (tr : list call) : list (Z * list Z) :=
  match tr with
  | [] => []
  | CallSendPage index _ bytes _ :: rest => (index, bytes) :: sent_pages rest
  | CallUpdate :: rest => sent_pages rest
  end.

(** Any sink, together with the number of [SendPage] calls made to it. *)
Definition counted {Dev : Type} (sink : display_driver Dev)
  : display_driver (Dev * Z) :=
  Build_display_driver (Dev * Z)
    (@kFrameSize Dev sink) (@kNumPages Dev sink) (@kPageSize Dev sink)
    (λ s, (@driver_Init Dev sink s.1, s.2))
    (λ s, (@driver_Flush Dev sink s.1, s.2))
    (λ index data mem s,
       let '(accepted, s') := @SendPage Dev sink index data mem s.1 in
       (accepted, (s', s.2 + 1))).

(** ** page_display_driver.h *)

Module PagedDisplayDriver.

Record t := Build {
  frame_ : option ptr;
  page_ : Z
}.

Section Methods.
Context `{Target} {Dev : Type} `{display_driver Dev}.

Definition Init (_ : t) (s : Dev) : t * Dev :=
  ({| frame_ := None; page_ := 0 |}, driver_Init s).

Definition Flush (d : t) (s : Dev) : bool * t * Dev :=
  (match frame_ d with None => true | Some _ => false end,
   d, driver_Flush s).

Definition Begin (frame : option ptr) (_ : t) : t :=
  {| frame_ := frame; page_ := 0 |}.

Definition frame_valid (d : t) : bool :=
  match frame_ d with Some _ => true | None => false end.

(** Returns the driver, the sink and the calls made to the sink. *)
Definition Update (mem : memory) (d : t) (s : Dev) : t * Dev * list call :=
  match frame_ d with
  | Some frame =>
      let index := to_uint_fast8 (page_ d) in
      let '(accepted, s') := SendPage index frame mem s in
      let sent := CallSendPage index frame
                    (load_bytes mem frame kPageSize) accepted in
      if accepted then
        let frame' := Some (ptr_add frame kPageSize) in
        let page' := wrap (page_ d + 1) in
        ({| frame_ := if page' >=? kNumPages then None else frame';
            page_ := page' |}, s', [sent])
      else (d, s', [sent])
  | None => (d, s, [])
  end.

(** A frame in flight has a page left to send. *)
Definition page_pending (d : t) : Prop :=
  frame_ d ≠ None → 0 <= page_ d < kNumPages.

End Methods.
End PagedDisplayDriver.

(** ** ILI9341_Driver.cpp *)

Module ILI9341_Driver.

(** The colours of the ILI9341_t3 library that the driver names. *)
Inductive color := ILI9341_BLACK | ILI9341_WHITE | ILI9341_DARKGREY.

Definition ILI9341_BG_COLOR := ILI9341_BLACK.
Definition ILI9341_FG_COLOR := ILI9341_WHITE.

Definition DISPLAY_SCALE : Z := 2.
Definition DISPLAY_OFFSET_X : Z := (320 - 128 * DISPLAY_SCALE) / 2.
Definition DISPLAY_OFFSET_Y : Z := (240 - 64 * DISPLAY_SCALE) / 2.

Definition kFrameSize : Z := 128 * 64 / 8.
Definition kNumPages : Z := 8.
Definition kPageSize : Z := kFrameSize / kNumPages.
Definition kSourceWidth : Z := 128.
Definition kSourceHeight : Z := 64.

(** Calls into the ILI9341_t3 object [tft]. *)
Inductive tft_call :=
| tft_begin
| tft_setRotation (r : Z)
| tft_fillScreen (c : color)
| tft_fillRect (x y w h : Z) (c : color)
| tft_drawRect (x y w h : Z) (c : color).

(** The file's statics; [tft] holds the calls made so far, most recent
    first. *)
Record state := Build {
  tft : list tft_call;
  page_buffer : list (list Z);
  page_dirty : list bool;
  display_initialized : bool;
  flip_mode : bool
}.

Definition cleared_buffer : list (list Z) :=
  replicate (Z.to_nat kNumPages) (replicate (Z.to_nat kPageSize) 0).

Definition cleared_dirty : list bool :=
  replicate (Z.to_nat kNumPages) false.

(** The statics as they are at program start. *)
Definition statics : state :=
  {| tft := []; page_buffer := cleared_buffer; page_dirty := cleared_dirty;
     display_initialized := false; flip_mode := false |}.

Definition tft_do (c : tft_call) (s : state) : state :=
  {| tft := c :: tft s; page_buffer := page_buffer s;
     page_dirty := page_dirty s;
     display_initialized := display_initialized s;
     flip_mode := flip_mode s |}.

Definition Init (s : state) : state :=
  let s := tft_do tft_begin s in
  let s := tft_do (tft_setRotation (if flip_mode s then 2 else 0)) s in
  let s := tft_do (tft_fillScreen ILI9341_BG_COLOR) s in
  let s := {| tft := tft s; page_buffer := cleared_buffer;
              page_dirty := cleared_dirty;
              display_initialized := true; flip_mode := flip_mode s |} in
  let x := DISPLAY_OFFSET_X - 1 in
  let y := DISPLAY_OFFSET_Y - 1 in
  let w := kSourceWidth * DISPLAY_SCALE + 2 in
  let h := kSourceHeight * DISPLAY_SCALE + 2 in
  tft_do (tft_drawRect x y w h ILI9341_DARKGREY) s.

Definition Flush (s : state) : state := s.

Definition DrawScaledPixel (x y : Z) (on : bool) (s : state) : state :=
  let x := if flip_mode s then kSourceWidth - 1 - x else x in
  let y := if flip_mode s then kSourceHeight - 1 - y else y in
  let screen_x := DISPLAY_OFFSET_X + x * DISPLAY_SCALE in
  let screen_y := DISPLAY_OFFSET_Y + y * DISPLAY_SCALE in
  let color := if on then ILI9341_FG_COLOR else ILI9341_BG_COLOR in
  tft_do (tft_fillRect screen_x screen_y DISPLAY_SCALE DISPLAY_SCALE color) s.

(** The inner loop over the eight bits of one column byte. *)
Definition draw_byte (col page_y_start byte : Z) (s : state) : state :=
  fold_left
    (λ s bit,
       let y := page_y_start + bit in
       let pixel_on := Z.land (Z.shiftr byte bit) 1 =? 1 in
       DrawScaledPixel col y pixel_on s)
    (seqZ 0 8) s.

(** The outer loop over the 128 columns of a page. *)
Definition draw_page (index : Z) (data : ptr) (mem : memory) (s : state)
  : state :=
  let page_y_start := index * 8 in
  fold_left (λ s col, draw_byte col page_y_start (load mem data col) s)
            (seqZ 0 128) s.

Definition SendPage (index : Z) (data : ptr) (mem : memory) (s : state)
  : bool * state :=
  if negb (display_initialized s) then (false, s)
  else if index >=? kNumPages then (false, s)
  else
    let s := {| tft := tft s;
                page_buffer := <[Z.to_nat index :=
                                   load_bytes mem data kPageSize]>
                                 (page_buffer s);
                page_dirty := <[Z.to_nat index := true]> (page_dirty s);
                display_initialized := display_initialized s;
                flip_mode := flip_mode s |} in
    (true, draw_page index data mem s).

Definition Clear (s : state) : state :=
  if negb (display_initialized s) then s
  else
    let s := tft_do (tft_fillRect DISPLAY_OFFSET_X DISPLAY_OFFSET_Y
                       (kSourceWidth * DISPLAY_SCALE)
                       (kSourceHeight * DISPLAY_SCALE)
                       ILI9341_BG_COLOR) s in
    {| tft := tft s; page_buffer := cleared_buffer;
       page_dirty := cleared_dirty;
       display_initialized := display_initialized s;
       flip_mode := flip_mode s |}.

(** The two inner loops of [UpdateDisplay] are those of [SendPage], with
    [page] for [index] and [frame_buffer + page * kPageSize] for [data]. *)
Definition UpdateDisplay (frame_buffer : ptr) (mem : memory) (s : state)
  : state :=
  if negb (display_initialized s) then s
  else
    fold_left
      (λ s page,
         let page_data := ptr_add frame_buffer (page * kPageSize) in
         draw_page page page_data mem s)
      (seqZ 0 kNumPages) s.

Definition SetFlipMode (flip180 : bool) (s : state) : state :=
  let s := {| tft := tft s; page_buffer := page_buffer s;
              page_dirty := page_dirty s;
              display_initialized := display_initialized s;
              flip_mode := flip180 |} in
  if display_initialized s
  then tft_do (tft_setRotation (if flip180 then 2 else 0)) s
  else s.

(** [SendPage] for the pages 0, 1, ... of a whole frame, in this order. *)
Definition send_frame (frame : ptr) (mem : memory) (s : state) : state :=
  fold_left
    (λ s page, (SendPage page (ptr_add frame (page * kPageSize)) mem s).2)
    (seqZ 0 kNumPages) s.

(** The call [DrawScaledPixel] makes. *)
Definition pixel_rect (flip : bool) (x y : Z) (on : bool) : tft_call :=
  let x := if flip then kSourceWidth - 1 - x else x in
  let y := if flip then kSourceHeight - 1 - y else y in
  tft_fillRect (DISPLAY_OFFSET_X + x * DISPLAY_SCALE)
               (DISPLAY_OFFSET_Y + y * DISPLAY_SCALE)
               DISPLAY_SCALE DISPLAY_SCALE
               (if on then ILI9341_FG_COLOR else ILI9341_BG_COLOR).

(** The calls one column byte turns into, most recent first. *)
Definition byte_rects (flip : bool) (col page_y_start byte : Z)
  : list tft_call :=
  rev ((λ bit, pixel_rect flip col (page_y_start + bit)
                 (Z.land (Z.shiftr byte bit) 1 =? 1)) <$> seqZ 0 8).

(** The calls one page turns into, most recent first. *)
Definition page_rects (flip : bool) (index : Z) (data : ptr) (mem : memory)
  : list tft_call :=
  concat (rev ((λ col, byte_rects flip col (index * 8) (load mem data col))
               <$> seqZ 0 128)).

(** A scaled pixel inside the area the 128x64 content is shown in, which is
    the inside of the border [Init] draws. *)
Definition content_rect (c : tft_call) : Prop :=
  match c with
  | tft_fillRect x y w h _ =>
      w = DISPLAY_SCALE ∧ h = DISPLAY_SCALE ∧
      DISPLAY_OFFSET_X <= x ∧
      x + w <= DISPLAY_OFFSET_X + kSourceWidth * DISPLAY_SCALE ∧
      DISPLAY_OFFSET_Y <= y ∧
      y + h <= DISPLAY_OFFSET_Y + kSourceHeight * DISPLAY_SCALE
  | _ => False
  end.

(** The arrays have the sizes they are declared with. *)
Definition well_sized (s : state) : Prop :=
  length (page_buffer s) = Z.to_nat kNumPages ∧
  length (page_dirty s) = Z.to_nat kNumPages.

(** The rotation the display was last set to, if any. *)
Fixpoint last_rotation (calls : list tft_call) : option Z :=
  match calls with
  | [] => None
  | tft_setRotation r :: _ => Some r
  | _ :: rest => last_rotation rest
  end.

#[global] Instance driver : display_driver state :=
  Build_display_driver state kFrameSize kNumPages kPageSize
                       Init Flush SendPage.

End ILI9341_Driver.

(** ** display.h and display.cpp *)

Module display.

(** [FrameBuffer<SH1106_128x64_Driver::kFrameSize, 2> frame_buffer]. *)
Definition pool_params {Dev : Type} `{display_driver Dev} : FrameBuffer.Params :=
  {| FrameBuffer.kFrameSize := kFrameSize; FrameBuffer.kNumFrames := 2 |}.

(** The globals of the display layer, the sink's statics and the calls
    made so far (most recent first). *)
Record state (Dev : Type) := Build {
  frame_buffer : FrameBuffer.t;
  driver : PagedDisplayDriver.t;
  device : Dev;
  trace : list call
}.
Arguments Build {Dev}.
Arguments frame_buffer {Dev}.
Arguments driver {Dev}.
Arguments device {Dev}.
Arguments trace {Dev}.

(** How a bracketed drawing session ends. *)
Inductive outcome := Drawn | Dropped.

Section Display.
Context `{Target} {Dev : Type} `{display_driver Dev}.
Local Existing Instance pool_params.

Definition Init (st : state Dev) : state Dev :=
  let fb := FrameBuffer.Init (frame_buffer st) in
  let '(d, s) := PagedDisplayDriver.Init (driver st) (device st) in
  {| frame_buffer := fb; driver := d; device := s; trace := trace st |}.

Definition Flush (st : state Dev) : state Dev :=
  let '(idle, d, s) := PagedDisplayDriver.Flush (driver st) (device st) in
  {| frame_buffer := if idle then FrameBuffer.read (frame_buffer st)
                     else frame_buffer st;
     driver := d; device := s; trace := trace st |}.

Definition Update (st : state Dev) : state Dev :=
  if PagedDisplayDriver.frame_valid (driver st) then
    let '(d, s, sent) :=
      PagedDisplayDriver.Update (FrameBuffer.frames_ (frame_buffer st))
                                (driver st) (device st) in
    {| frame_buffer := frame_buffer st; driver := d; device := s;
       trace := sent ++ CallUpdate :: trace st |}
  else if FrameBuffer.readable (frame_buffer st) then
    let '(frame, fb) := FrameBuffer.readable_frame (frame_buffer st) in
    {| frame_buffer := fb;
       driver := PagedDisplayDriver.Begin frame (driver st);
       device := device st; trace := CallUpdate :: trace st |}
  else
    {| frame_buffer := frame_buffer st; driver := driver st;
       device := device st; trace := CallUpdate :: trace st |}.

(** *** GRAPHICS_BEGIN_FRAME(wait) ... GRAPHICS_END_FRAME() *)

(** One pass through the body of the macro's inner [do ... while]:
    [if (writeable()) frame = writeable_frame();] with [frame] still
    [NULL] on entry. *)
Definition probe (st : state Dev) : option ptr * state Dev :=
  if FrameBuffer.writeable (frame_buffer st) then
    let '(frame, fb) := FrameBuffer.writeable_frame (frame_buffer st) in
    (frame, {| frame_buffer := fb; driver := driver st;
               device := device st; trace := trace st |})
  else (None, st).

(** The inner loop [do ... while (!frame && wait)], at most [fuel]
    passes; [None] when the loop is still waiting after [fuel] passes. *)
Fixpoint acquire (fuel : nat) (wait : bool) (st : state Dev)
  : option (option ptr * state Dev) :=
  match fuel with
  | O => None
  | S fuel' =>
      let '(frame, st') := probe st in
      match frame with
      | None => if wait then acquire fuel' wait st' else Some (None, st')
      | Some _ => Some (frame, st')
      end
  end.

(** The guarded block: [graphics.Begin(frame, CLEAR_FRAME_ENABLE)], the
    drawing code and [graphics.End()] turn the bytes of the slot into
    [render bytes] (weegfx is not part of the sources at hand; it writes
    inside the frame, so [render] is meant to keep the length), then
    [written()] publishes the slot. *)
Definition draw_and_commit (render : list Z → list Z) (frame : ptr)
    (st : state Dev) : state Dev :=
  let fb := frame_buffer st in
  let mem := <[Z.to_nat (slot frame) :=
                 render (slot_bytes (FrameBuffer.frames_ fb) (slot frame))]>
             (FrameBuffer.frames_ fb) in
  {| frame_buffer := FrameBuffer.written (FrameBuffer.with_frames fb mem);
     driver := driver st; device := device st; trace := trace st |}.

Definition graphics_frame (fuel : nat) (wait : bool)
    (render : list Z → list Z) (st : state Dev)
  : option (outcome * state Dev) :=
  match acquire fuel wait st with
  | None => None
  | Some (None, st') => Some (Dropped, st')
  | Some (Some frame, st') => Some (Drawn, draw_and_commit render frame st')
  end.

(** [n] calls of [display::Update]. *)
Fixpoint Updates (n : nat) (st : state Dev) : state Dev :=
  match n with
  | O => st
  | S n' => Updates n' (Update st)
  end.

(** The calls made since the trace was [before]. *)
Definition since (before : list call) (st : state Dev) : list call :=
  take (length (trace st) - length before)%nat (trace st).

(** Whether one waiting pass of the macro's loop called
    [display::Update]. *)
Definition pass_services_step (st : state Dev) : bool :=
  existsb is_update (since (trace st) (probe st).2).

(** Whether the sink turns down [n] calls in a row for the page
    [index] at [frame]. *)
Fixpoint rejecting (n : nat) (index : Z) (frame : ptr) (mem : memory)
    (s : Dev) : bool :=
  match n with
  | O => true
  | S n' =>
      let '(accepted, s') := SendPage index frame mem s in
      negb accepted && rejecting n' index frame mem s'
  end.

(** What one call of [display::Update] that reaches the sink leaves in
    the trace. *)
Definition attempt (index : Z) (frame : ptr) (mem : memory)
    (accepted : bool) : list call :=
  [CallSendPage index frame (load_bytes mem frame kPageSize) accepted;
   CallUpdate].

(** The sink after [n] calls of [SendPage] for the page [index] at
    [frame]. *)
Fixpoint resent (n : nat) (index : Z) (frame : ptr) (mem : memory)
    (s : Dev) : Dev :=
  match n with
  | O => s
  | S n' => resent n' index frame mem (SendPage index frame mem s).2
  end.

(** The sink after one call of [SendPage] for each of the pages [indices]
    of the frame at [frame], in this order, each page from its own offset
    [index * kPageSize]. *)
Definition send_pages (mem : memory) (frame : ptr) (indices : list Z)
    (s : Dev) : Dev :=
  fold_left
    (λ s index,
       (SendPage index (ptr_add frame (index * kPageSize)) mem s).2)
    indices s.

(** *** What the application does with the display *)

Inductive command :=
| DoUpdate                                        (* display::Update() *)
| DoFlush                                         (* display::Flush() *)
| DoFrame (wait : bool) (render : list Z → list Z).
    (* GRAPHICS_BEGIN_FRAME(wait) ... GRAPHICS_END_FRAME() *)

(** [None] when a blocking [GRAPHICS_BEGIN_FRAME] is still waiting after
    [fuel] passes. *)
Definition exec (fuel : nat) (c : command) (st : state Dev)
  : option (state Dev) :=
  match c with
  | DoUpdate => Some (Update st)
  | DoFlush => Some (Flush st)
  | DoFrame wait render =>
      match graphics_frame fuel wait render st with
      | Some (_, st') => Some st'
      | None => None
      end
  end.

Fixpoint run (fuel : nat) (cmds : list command) (st : state Dev)
  : option (state Dev) :=
  match cmds with
  | [] => Some st
  | c :: rest =>
      match exec fuel c st with
      | Some st' => run fuel rest st'
      | None => None
      end
  end.

(** What holds of the display between any two commands: the ring relation
    modulo the two slots, and a frame in flight is the slot at the read
    index, published, with [frame_] at the page that is due. *)
Record streaming (st : state Dev) : Prop := {
  str_read : 0 <= FrameBuffer.read_frame_ (frame_buffer st) < 2;
  str_count :
    0 <= FrameBuffer.readable_count_ (frame_buffer st) < 2 ^ size_bits;
  str_write :
    FrameBuffer.write_frame_ (frame_buffer st)
    = (FrameBuffer.read_frame_ (frame_buffer st)
       + FrameBuffer.readable_count_ (frame_buffer st)) mod 2;
  str_frame : ∀ p, PagedDisplayDriver.frame_ (driver st) = Some p →
    slot p = FrameBuffer.read_frame_ (frame_buffer st) ∧
    offset p = PagedDisplayDriver.page_ (driver st) * kPageSize ∧
    0 <= PagedDisplayDriver.page_ (driver st) < kNumPages ∧
    0 < FrameBuffer.readable_count_ (frame_buffer st)
}.

(** The pages of the frame at [frame], as the sink is to receive them, the
    last page first. *)
Definition frame_pages (mem : memory) (frame : ptr) : list (Z * list Z) :=
  rev ((λ i, (i, load_bytes mem (ptr_add frame (i * kPageSize)) kPageSize))
       <$> seqZ 0 kNumPages).

End Display.
End display.

(** ** weegfx.h *)

Module weegfx.



End weegfx.

(** ** Main.cpp *)

Module Main.

(** [uint32_t], the type of [millis()] and of [last_redraw]. *)
Definition uint32 (z : Z) : Z := z mod 2 ^ 32.

(** [int] on the target, 32 bits in two's complement.  Signed overflow is
    undefined in the source; here it wraps, as the target's arithmetic
    does. *)
Definition int32 (z : Z) : Z := (z + 2 ^ 31) mod 2 ^ 32 - 2 ^ 31.

Definition REDRAW_INTERVAL_MS : Z := 33.

(** The file's statics and the display's globals. *)
Record state (Dev : Type) := Build {
  screen : display.state Dev;
  last_redraw : Z;
  frame_count : Z;
  ball_x : Z;
  ball_y : Z;
  ball_dx : Z;
  ball_dy : Z
}.
Arguments Build {Dev}.
Arguments screen {Dev}.
Arguments last_redraw {Dev}.
Arguments frame_count {Dev}.
Arguments ball_x {Dev}.
Arguments ball_y {Dev}.
Arguments ball_dx {Dev}.
Arguments ball_dy {Dev}.

Section Program.
Context `{Target} {Dev : Type} `{display_driver Dev}.

(** The statics as initialised, around whatever the display's globals
    hold at power-on. *)
Definition statics (d : display.state Dev) : state Dev :=
  {| screen := d; last_redraw := 0; frame_count := 0;
     ball_x := 64; ball_y := 32; ball_dx := 2; ball_dy := 1 |}.

Definition with_screen (st : state Dev) (d : display.state Dev) : state Dev :=
  {| screen := d; last_redraw := last_redraw st;
     frame_count := frame_count st;
     ball_x := ball_x st; ball_y := ball_y st;
     ball_dx := ball_dx st; ball_dy := ball_dy st |}.

(** [setup()]; the serial output and the delay leave no trace here. *)
Definition setup (st : state Dev) : state Dev :=
  with_screen st (display.Init (screen st)).

(** The head of the redraw branch of [loop()]: time stamp, frame counter,
    ball position and the bounce off the walls. *)
Definition animate (now : Z) (st : state Dev) : state Dev :=
  let frame_count' := int32 (frame_count st + 1) in
  let ball_x' := int32 (ball_x st + ball_dx st) in
  let ball_y' := int32 (ball_y st + ball_dy st) in
  let ball_dx' := if (ball_x' <=? 4) || (ball_x' >=? 123)
                  then int32 (- ball_dx st) else ball_dx st in
  let ball_dy' := if (ball_y' <=? 4) || (ball_y' >=? 59)
                  then int32 (- ball_dy st) else ball_dy st in
  {| screen := screen st; last_redraw := now; frame_count := frame_count';
     ball_x := ball_x'; ball_y := ball_y';
     ball_dx := ball_dx'; ball_dy := ball_dy' |}.

(** One call of [loop()] with [millis()] returning [now].  [draw x y n] is
    what the drawing code between the two macros makes of the frame for the
    ball at [(x, y)] and the frame counter [n].  [None] when
    [GRAPHICS_BEGIN_FRAME(true)] is still waiting after [fuel] passes. *)
Definition loop (fuel : nat) (draw : Z → Z → Z → list Z → list Z)
    (now : Z) (st : state Dev) : option (state Dev) :=
  if uint32 (now - last_redraw st) >=? REDRAW_INTERVAL_MS then
    let st := animate now st in
    match display.graphics_frame fuel true
            (draw (ball_x st) (ball_y st) (frame_count st)) (screen st) with
    | None => None
    | Some (_, d) =>
        let d := display.Update d in
        let d := display.Flush d in
        Some (with_screen st (display.Update d))
    end
  else Some (with_screen st (display.Update (screen st))).

(** [loop()] called again and again, [millis()] returning the values of
    [nows] in turn. *)
Fixpoint loops (fuel : nat) (draw : Z → Z → Z → list Z → list Z)
    (nows : list Z) (st : state Dev) : option (state Dev) :=
  match nows with
  | [] => Some st
  | now :: rest =>
      match loop fuel draw now st with
      | Some st' => loops fuel draw rest st'
      | None => None
      end
  end.



(** The pool as [loop()] leaves it: the display's invariant, at most two
    frames published, two slots of storage. *)
Definition tidy (d : display.state Dev) : Prop :=
  display.streaming d ∧
  FrameBuffer.readable_count_ (display.frame_buffer d) <= 2 ∧
  length (FrameBuffer.frames_ (display.frame_buffer d)) = 2%nat.

End Program.
End Main.

(** ** The DAC8568 test sketches

    The two sketches that drive the DAC8568 over SPI: the menu-driven one
    sends its frames with [ocSend], the simple one with [dacWriteCommand];
    both share [setChannel], [setAllChannels] and the two sweep tests.
    What is kept of a call is the traffic on the bus and on the chip-select
    pin; serial output and delays leave no trace here. *)

Module DAC8568.

Definition uint16 (z : Z) : Z := z mod 2 ^ 16.
Definition uint32 (z : Z) : Z := z mod 2 ^ 32.

Definition DAC8568_CMD_WRITE_UPDATE_ALL : Z := 2.
Definition DAC8568_CMD_WRITE_UPDATE : Z := 3.
Definition DAC_CH_ALL : Z := 15.

(** What reaches the bus, in program order. *)
Inductive bus_call :=
| beginTransaction
| chip_select (high : bool)          (* digitalWrite(DAC_CS_PIN, ...) *)
| transfer (byte : Z)
| endTransaction.

(** The four [transfer] arguments for a 32-bit word, most significant
    first. *)
Definition word_bytes (w : Z) : list Z :=
  [Z.land (Z.shiftr w 24) 255; Z.land (Z.shiftr w 16) 255;
   Z.land (Z.shiftr w 8) 255; Z.land w 255].

Definition send_word (w : Z) : list bus_call :=
  [beginTransaction; chip_select false]
  ++ (transfer <$> word_bytes w)
  ++ [chip_select true; endTransaction].

(** [uint32_t message] of [dacWriteCommand]. *)
Definition message (command address data : Z) : Z :=
  Z.lor (Z.lor (uint32 (Z.shiftl command 28)) (uint32 (Z.shiftl address 24)))
        (uint32 (Z.shiftl data 8)).

Definition dacWriteCommand (command address data : Z) : list bus_call :=
  send_word (message command address data).

(** [uint32_t word] of [ocSend]. *)
Definition word (cmd addr data : Z) : Z :=
  Z.lor (Z.lor (uint32 (Z.shiftl cmd 24)) (uint32 (Z.shiftl addr 20)))
        (uint32 (Z.shiftl data 4)).

Definition ocSend (cmd addr data : Z) : list bus_call :=
  send_word (word cmd addr data).

Definition setChannel (channel value : Z) : list bus_call :=
  if channel >? 7 then []
  else dacWriteCommand DAC8568_CMD_WRITE_UPDATE channel value.

Definition setAllChannels (value : Z) : list bus_call :=
  dacWriteCommand DAC8568_CMD_WRITE_UPDATE_ALL DAC_CH_ALL value.

(** [for (uint16_t val = ...; val <= 65535; val += 6553) setChannel(ch, val);]
    from [val] on, at most [fuel] turns; [None] when the loop has not come
    to its end by then. *)
Fixpoint sweep_channel (fuel : nat) (ch val : Z) : option (list bus_call) :=
  match fuel with
  | O => None
  | S fuel' =>
      if val <=? 65535 then
        match sweep_channel fuel' ch (uint16 (val + 6553)) with
        | Some rest => Some (setChannel ch val ++ rest)
        | None => None
        end
      else Some []
  end.

(** The outer loop of [testIndividualChannels] over the channels [chs]. *)
Fixpoint test_channels (fuel : nat) (chs : list Z)
  : option (list bus_call) :=
  match chs with
  | [] => Some []
  | ch :: rest =>
      match sweep_channel fuel ch 0 with
      | Some sweep =>
          match test_channels fuel rest with
          | Some others => Some (sweep ++ setChannel ch 0 ++ others)
          | None => None
          end
      | None => None
      end
  end.

Definition testIndividualChannels (fuel : nat) : option (list bus_call) :=
  test_channels fuel (seqZ 0 8).

(** [for (uint16_t val = ...; val <= 65535; val += 2048) setAllChannels(val);] *)
Fixpoint sweep_up (fuel : nat) (val : Z) : option (list bus_call) :=
  match fuel with
  | O => None
  | S fuel' =>
      if val <=? 65535 then
        match sweep_up fuel' (uint16 (val + 2048)) with
        | Some rest => Some (setAllChannels val ++ rest)
        | None => None
        end
      else Some []
  end.

(** [for (uint16_t val = ...; val > 0; val -= 2048) setAllChannels(val);] *)
Fixpoint sweep_down (fuel : nat) (val : Z) : option (list bus_call) :=
  match fuel with
  | O => None
  | S fuel' =>
      if val >? 0 then
        match sweep_down fuel' (uint16 (val - 2048)) with
        | Some rest => Some (setAllChannels val ++ rest)
        | None => None
        end
      else Some []
  end.

Definition testAllChannelsSweep (fuel : nat) : option (list bus_call) :=
  match sweep_up fuel 0 with
  | Some up =>
      match sweep_down fuel 65535 with
      | Some down => Some (up ++ down ++ setAllChannels 0)
      | None => None
      end
  | None => None
  end.

End DAC8568.

(** ** Concrete configurations used in the examples *)

(** The pool of display.cpp: 1024-byte frames, two of them. *)
Definition double_buffer : FrameBuffer.Params :=
  {| FrameBuffer.kFrameSize := 128 * 64 / 8; FrameBuffer.kNumFrames := 2 |}.

(** A pool before [Init]: the object's storage holds whatever it held. *)
Definition garbage_pool : FrameBuffer.t :=
  {| FrameBuffer.frames_ := []; FrameBuffer.write_frame_ := 7;
     FrameBuffer.read_frame_ := 5; FrameBuffer.readable_count_ := 9 |}.

(** A pool of two four-byte frames, small enough to print. *)
Definition tiny_pool : FrameBuffer.Params :=
  {| FrameBuffer.kFrameSize := 4; FrameBuffer.kNumFrames := 2 |}.

(** Three frames A, B, C through a pool of two: the third probe finds the
    pool full and C is drawn only after A has been released. *)
Definition three_frames : list Client.action :=
  [Client.AcquireWritable; Client.Draw 0 170; Client.Commit;
   Client.AcquireWritable; Client.Draw 0 187; Client.Commit;
   Client.AcquireWritable;
   Client.PeekReadable; Client.Release;
   Client.AcquireWritable; Client.Draw 0 204; Client.Commit;
   Client.PeekReadable; Client.Release;
   Client.PeekReadable; Client.Release].

(** Producer and consumer each hold a slot of the double buffer. *)
Definition both_at_work : list Client.action :=
  [Client.AcquireWritable; Client.Draw 3 1; Client.Commit;
   Client.PeekReadable; Client.AcquireWritable; Client.Draw 5 255].

Module Scenario.
Import display.

(** The globals before [display::Init]. *)
Definition power_on : state ILI9341_Driver.state :=
  {| frame_buffer := garbage_pool;
     driver := {| PagedDisplayDriver.frame_ := Some (Ptr 1 40);
                  PagedDisplayDriver.page_ := 99 |};
     device := ILI9341_Driver.statics;
     trace := [] |}.

Definition booted : state ILI9341_Driver.state := Init power_on.

(** A drawing body that fills the frame with the byte [b]. *)
Definition fill (b : Z) (bytes : list Z) : list Z :=
  replicate (length bytes) b.

(** [GRAPHICS_BEGIN_FRAME(wait); fill(b); GRAPHICS_END_FRAME()], the
    state afterwards (the state before, should the loop still wait). *)
Definition frame_of (wait : bool) (b : Z)
    (st : state ILI9341_Driver.state) : state ILI9341_Driver.state :=
  match graphics_frame 1 wait (fill b) st with
  | Some (_, st') => st'
  | None => st
  end.

(** One frame published after boot. *)
Definition one_queued : state ILI9341_Driver.state :=
  frame_of true 0 booted.

(** Both frames published, nothing sent yet. *)
Definition pool_full : state ILI9341_Driver.state :=
  frame_of true 255 one_queued.

(** The frame is begun and pages 0..6 are sent: page 7 is due. *)
Definition last_page_due : state ILI9341_Driver.state :=
  Updates 8 one_queued.

(** The frame is begun on a display whose driver was never initialised. *)
Definition begun_uninitialised : state ILI9341_Driver.state :=
  {| frame_buffer := frame_buffer one_queued;
     driver := {| PagedDisplayDriver.frame_ := Some (Ptr 0 0);
                  PagedDisplayDriver.page_ := 0 |};
     device := ILI9341_Driver.statics;
     trace := [] |}.

(** Main.cpp on the ILI9341 display, at power-on. *)
Definition main_power_on : Main.state ILI9341_Driver.state :=
  Main.statics power_on.

(** A drawing body that writes the ball position into the first bytes. *)
Definition draw_ball (x y n : Z) (bytes : list Z) : list Z :=
  <[0%nat := x]> (<[1%nat := y]> (<[2%nat := n mod 256]> bytes)).

(** The first frame is begun and its pages 0 and 1 are sent. *)
Definition two_pages_sent : state ILI9341_Driver.state :=
  Updates 3 one_queued.

(** Main.cpp's statics around a display whose pool is full. *)
Definition main_pool_full : Main.state ILI9341_Driver.state :=
  Main.statics pool_full.

(** The ILI9341 display with its [SendPage] calls counted. *)
Definition counted_ILI9341 : display_driver (ILI9341_Driver.state * Z) :=
  counted ILI9341_Driver.driver.

(** The same globals, the count of the sink's calls at 0. *)
Definition from_now (st : state ILI9341_Driver.state)
  : state (ILI9341_Driver.state * Z) :=
  {| frame_buffer := frame_buffer st; driver := driver st;
     device := (device st, 0); trace := trace st |}.


End Scenario.

(** * Properties *)

(** ** Arithmetic of the wrap-around *)

Section Wrap.
Context `{Target}.

Lemma wrap_small (z : Z) : 0 <= z < 2 ^ size_bits → wrap z = z.
Proof. intros Hz. unfold wrap. apply Z.mod_small. exact Hz. Qed.

Lemma wrap_minus_one : 0 < size_bits → wrap (0 - 1) = 2 ^ size_bits - 1.
Proof.
  intros Hw. unfold wrap.
  assert (1 < 2 ^ size_bits) by (apply Z.pow_gt_1; lia).
  symmetry. apply (Z.mod_unique_pos _ _ (-1)); lia.
Qed.
Lemma wrap_bounds (z : Z) :
  0 < size_bits → 0 <= wrap z < 2 ^ size_bits.
Proof.
  intros Hw. unfold wrap. apply Z.mod_pos_bound.
  apply Z.pow_pos_nonneg; lia.
Qed.

Lemma wrap_succ_le (z : Z) :
  0 < size_bits → 0 <= z → wrap (z + 1) <= z + 1.
Proof.
  intros Hw Hz. unfold wrap. apply Z.mod_le; [lia|].
  apply Z.pow_pos_nonneg; lia.
Qed.

(** A type that holds a value above 1 has at least one bit. *)
Lemma size_bits_positive (n : Z) : 1 < n → n < 2 ^ size_bits → 0 < size_bits.
Proof.
  intros Hn Hlt.
  destruct (Z.lt_trichotomy size_bits 0) as [Hneg | [Hz | Hpos]];
    [| | exact Hpos].
  - rewrite Z.pow_neg_r in Hlt by exact Hneg. lia.
  - rewrite Hz in Hlt. simpl in Hlt. lia.
Qed.
End Wrap.

(** Two offsets from the same ring position that differ by less than the
    ring size land on different slots. *)
Lemma ring_positions_differ (n r j k : Z) :
  0 < n → 0 <= j < k → k - j < n → (r + j) mod n ≠ (r + k) mod n.
Proof.
  intros Hn Hjk Hlt Heq.
  pose proof (Z.div_mod (r + j) n ltac:(lia)) as Hj.
  pose proof (Z.div_mod (r + k) n ltac:(lia)) as Hk.
  rewrite Heq in Hj.
  assert (Hd : k - j = n * ((r + k) / n - (r + j) / n)) by lia.
  assert (0 < (r + k) / n - (r + j) / n) by nia.
  nia.
Qed.

(** ** The frame pool *)

Module FrameBufferFacts.
Import FrameBuffer.

Section Facts.
Context `{Target} `{Params}.
Hypothesis frames_range : 0 < kNumFrames < 2 ^ size_bits.

Lemma ring_Init (fb : t) : ring (Init fb).
Proof.
  split; simpl; try lia.
  - rewrite Z.mod_0_l; lia.
  - now rewrite length_replicate.
Qed.

Lemma writeable_spec (fb : t) :
  writeable fb = true ↔ readable_count_ fb < kNumFrames.
Proof. unfold writeable. apply Z.ltb_lt. Qed.

Lemma readable_spec (fb : t) :
  readable fb = true ↔ 0 < readable_count_ fb.
Proof. unfold readable. rewrite Z.gtb_ltb. apply Z.ltb_lt. Qed.

Lemma written_count (fb : t) :
  ring fb → writeable fb = true →
  readable_count_ (written fb) = readable_count_ fb + 1.
Proof.
  intros [_ Hc _ _] Hw%writeable_spec. simpl.
  apply wrap_small. lia.
Qed.

Lemma read_count (fb : t) :
  ring fb → readable fb = true →
  readable_count_ (read fb) = readable_count_ fb - 1.
Proof.
  intros [_ Hc _ _] Hr%readable_spec. simpl.
  apply wrap_small. lia.
Qed.

Lemma written_index (fb : t) :
  ring fb →
  write_frame_ (written fb) = (write_frame_ fb + 1) mod kNumFrames.
Proof.
  intros [Hr Hc Hw _]. simpl. f_equal. apply wrap_small. rewrite Hw.
  assert (Hn : 0 < kNumFrames) by lia.
  pose proof (Z.mod_pos_bound (read_frame_ fb + readable_count_ fb)
                kNumFrames Hn).
  lia.
Qed.

Lemma read_index (fb : t) :
  ring fb →
  read_frame_ (read fb) = (read_frame_ fb + 1) mod kNumFrames.
Proof.
  intros [Hr _ _ _]. simpl. f_equal. apply wrap_small. lia.
Qed.

Lemma written_keeps_ring (fb : t) :
  ring fb → writeable fb = true → ring (written fb).
Proof.
  intros Hring Hw.
  pose proof (written_count fb Hring Hw) as Hcount.
  pose proof (written_index fb Hring) as Hidx.
  apply writeable_spec in Hw.
  destruct Hring as [Hr Hc Hwr Hlen].
  split.
  - exact Hr.
  - lia.
  - rewrite Hidx, Hcount, Hwr. simpl read_frame_.
    rewrite Z.add_mod_idemp_l by lia. f_equal. lia.
  - exact Hlen.
Qed.

Lemma read_keeps_ring (fb : t) :
  ring fb → readable fb = true → ring (read fb).
Proof.
  intros Hring Hrd.
  pose proof (read_count fb Hring Hrd) as Hcount.
  pose proof (read_index fb Hring) as Hidx.
  apply readable_spec in Hrd.
  destruct Hring as [Hr Hc Hwr Hlen].
  split.
  - rewrite Hidx. apply Z.mod_pos_bound. lia.
  - lia.
  - rewrite Hidx, Hcount. simpl write_frame_. rewrite Hwr.
    rewrite Z.add_mod_idemp_l by lia. f_equal. lia.
  - exact Hlen.
Qed.

Lemma ring_exec (o : op) (fb : t) :
  ring fb → guard o fb = true → ring (exec o fb).
Proof. destruct o; simpl; auto using written_keeps_ring, read_keeps_ring. Qed.

Lemma exec_count (o : op) (fb : t) :
  ring fb → guard o fb = true →
  readable_count_ (exec o fb)
  = readable_count_ fb + calls Written [o] - calls Read [o].
Proof.
  destruct o; cbn [exec guard calls op_eqb]; intros Hring Hg.
  - rewrite written_count by assumption. lia.
  - rewrite read_count by assumption. lia.
Qed.

Lemma run_ring (ops : list op) (fb fb' : t) :
  ring fb → run ops fb = Some fb' →
  ring fb' ∧
  readable_count_ fb'
  = readable_count_ fb + calls Written ops - calls Read ops.
Proof.
  revert fb. induction ops as [|o ops IH]; intros fb Hring Hrun.
  - simpl in Hrun. injection Hrun as <-. split; [assumption | simpl; lia].
  - simpl in Hrun. destruct (guard o fb) eqn:Hg; [|discriminate].
    destruct (IH _ (ring_exec o fb Hring Hg) Hrun) as [Hr' Hc'].
    split; [assumption|].
    rewrite Hc', (exec_count o fb Hring Hg).
    destruct o; simpl; lia.
Qed.

Lemma run_take (n : nat) (ops : list op) (fb fb' : t) :
  run ops fb = Some fb' → ∃ fb'', run (take n ops) fb = Some fb''.
Proof.
  revert n fb. induction ops as [|o ops IH]; intros n fb Hrun.
  - destruct n; simpl; eauto.
  - destruct n as [|n]; simpl; [eauto|].
    simpl in Hrun. destruct (guard o fb); [|discriminate]. eauto.
Qed.

(** C6 (conservation).  From [Init], a sequence of [written] and [read]
    calls none of which is made against its guard leaves
    [readable_count_] equal to the number of commits minus the number of
    releases; the releases never outnumber the commits, and after every
    prefix of the sequence the count is that prefix's difference and
    lies between 0 and [kNumFrames]. *)
Theorem conservation (fb0 : t) (ops : list op) (fb : t) :
  run ops (Init fb0) = Some fb →
  readable_count_ fb = calls Written ops - calls Read ops ∧
  calls Read ops <= calls Written ops ∧
  ∀ n : nat, ∃ fb',
    run (take n ops) (Init fb0) = Some fb' ∧
    readable_count_ fb'
    = calls Written (take n ops) - calls Read (take n ops) ∧
    0 <= readable_count_ fb' <= kNumFrames.
Proof.
  intros Hrun.
  destruct (run_ring ops _ fb (ring_Init fb0) Hrun) as [Hring Hcount].
  simpl in Hcount.
  repeat split.
  - lia.
  - destruct Hring as [_ Hc _ _]. lia.
  - intros n.
    destruct (run_take n ops _ fb Hrun) as [fb' Hrun'].
    destruct (run_ring _ _ fb' (ring_Init fb0) Hrun') as [Hring' Hcount'].
    simpl in Hcount'.
    exists fb'. repeat split; try assumption; try lia;
      destruct Hring' as [_ Hc _ _]; lia.
Qed.

End Facts.
End FrameBufferFacts.

Lemma conservation_witness :
  let ops := [FrameBuffer.Written; FrameBuffer.Written; FrameBuffer.Read;
              FrameBuffer.Written; FrameBuffer.Read; FrameBuffer.Read] in
  ∃ fb,
    @FrameBuffer.run Teensy41 double_buffer ops
      (@FrameBuffer.Init double_buffer garbage_pool) = Some fb ∧
    FrameBuffer.readable_count_ fb = 0.
Proof.
  intros ops.
  eexists. split; [reflexivity|].
  refine (proj1 (@FrameBufferFacts.conservation Teensy41 double_buffer _
                   garbage_pool ops _ _)).
  - simpl. lia.
  - reflexivity.
Defined.

(** ** Producer and consumer *)

Module ClientFacts.
Import FrameBuffer Client FrameBufferFacts.

Lemma length_store (mem : memory) (p : ptr) (i b : Z) :
  length (store mem p i b) = length mem.
Proof. unfold store. apply length_alter. Qed.

Lemma slot_bytes_store_ne (mem : memory) (p : ptr) (i b s : Z) :
  0 <= s → 0 <= slot p → s ≠ slot p →
  slot_bytes (store mem p i b) s = slot_bytes mem s.
Proof.
  intros Hs Hp Hne. unfold slot_bytes, store.
  rewrite list_lookup_alter_ne; [reflexivity|]. lia.
Qed.

Section Facts.
Context `{Target} `{Params}.
Hypothesis frames_range : 0 < kNumFrames < 2 ^ size_bits.

Lemma queued_slot_bounds (fb : FrameBuffer.t) (k : Z) :
  0 <= queued_slot fb k < kNumFrames.
Proof. unfold queued_slot. apply Z.mod_pos_bound. lia. Qed.

Lemma queued_slot_last (fb : FrameBuffer.t) :
  ring fb → queued_slot fb (readable_count_ fb) = write_frame_ fb.
Proof. intros [_ _ Hw _]. unfold queued_slot. now rewrite Hw. Qed.

Lemma queued_slot_first (fb : FrameBuffer.t) :
  ring fb → queued_slot fb 0 = read_frame_ fb.
Proof.
  intros [Hr _ _ _]. unfold queued_slot.
  rewrite Z.add_0_r. apply Z.mod_small. lia.
Qed.

(** The slot the producer may write is none of the queued ones. *)
Lemma queued_slot_not_writable (fb : FrameBuffer.t) (k : Z) :
  ring fb → 0 <= k < readable_count_ fb →
  readable_count_ fb < kNumFrames →
  queued_slot fb k ≠ write_frame_ fb.
Proof.
  intros Hring Hk Hfull. rewrite <- (queued_slot_last fb Hring).
  unfold queued_slot. apply ring_positions_differ; lia.
Qed.

Lemma pending_draw (fb : FrameBuffer.t) (i b : Z) :
  ring fb → readable_count_ fb < kNumFrames →
  pending (with_frames fb
             (store (frames_ fb) (Ptr (write_frame_ fb) 0) i b))
  = pending fb.
Proof.
  intros Hring Hfull. unfold pending. simpl readable_count_.
  apply list_fmap_ext. intros n k [-> Hn]%lookup_seqZ.
  change (queued_slot (with_frames fb _) (0 + Z.of_nat n))
    with (queued_slot fb (0 + Z.of_nat n)).
  f_equal. simpl frames_.
  pose proof (queued_slot_bounds fb (0 + Z.of_nat n)).
  pose proof (queued_slot_bounds fb (readable_count_ fb)) as Hw.
  rewrite (queued_slot_last fb Hring) in Hw.
  apply slot_bytes_store_ne; simpl; try lia.
  apply queued_slot_not_writable; [assumption | lia | assumption].
Qed.

Lemma pending_written (fb : FrameBuffer.t) :
  ring fb → writeable fb = true →
  pending (written fb)
  = pending fb ++
    [(write_frame_ fb, slot_bytes (frames_ fb) (write_frame_ fb))].
Proof.
  intros Hring Hw. unfold pending.
  rewrite (written_count frames_range fb Hring Hw).
  destruct Hring as [Hr Hc Hwr Hlen].
  rewrite seqZ_app by lia. rewrite fmap_app. f_equal.
  rewrite (seqZ_cons _ 1) by lia. rewrite seqZ_nil by lia.
  simpl. unfold queued_slot. simpl read_frame_.
  replace (read_frame_ fb + (0 + readable_count_ fb))
    with (read_frame_ fb + readable_count_ fb) by lia.
  now rewrite <- Hwr.
Qed.

Lemma queued_slot_read (fb : FrameBuffer.t) (k : Z) :
  ring fb → queued_slot (read fb) k = queued_slot fb (1 + k).
Proof.
  intros Hring. unfold queued_slot.
  rewrite (read_index frames_range fb Hring).
  rewrite Z.add_mod_idemp_l by lia. f_equal. lia.
Qed.

Lemma pending_read (fb : FrameBuffer.t) :
  ring fb → readable fb = true →
  pending fb
  = (read_frame_ fb, slot_bytes (frames_ fb) (read_frame_ fb))
    :: pending (read fb).
Proof.
  intros Hring Hrd. unfold pending.
  rewrite (read_count frames_range fb Hring Hrd).
  apply (readable_spec fb) in Hrd.
  rewrite seqZ_cons by lia. rewrite fmap_cons.
  rewrite (queued_slot_first fb Hring). f_equal.
  replace (Z.succ 0) with (1 + 0) by lia.
  replace (Z.pred (readable_count_ fb)) with (readable_count_ fb - 1) by lia.
  rewrite <- fmap_add_seqZ, <- list_fmap_compose.
  apply list_fmap_ext. intros n k _. simpl.
  now rewrite (queued_slot_read fb k Hring).
Qed.

Lemma ring_with_frames (fb : FrameBuffer.t) (mem : memory) :
  ring fb → length mem = length (frames_ fb) → ring (with_frames fb mem).
Proof.
  intros [Hr Hc Hw Hlen] Hmem. split; simpl; try assumption. congruence.
Qed.

Lemma coherent_start (fb : FrameBuffer.t) : coherent (start fb).
Proof.
  split; simpl; try discriminate.
  - apply ring_Init. exact frames_range.
  - reflexivity.
Qed.

Lemma coherent_step (a : action) (c c' : Client.t) :
  coherent c → step a c = Some c' → coherent c'.
Proof.
  intros [Hring Hwh Hrh Hfifo] Hstep.
  destruct a; simpl in Hstep.
  - (* AcquireWritable *)
    unfold writeable_frame in Hstep.
    destruct (readable_count_ (pool c) >=? kNumFrames) eqn:Hfull;
      injection Hstep as <-; split; simpl; try assumption.
    + discriminate.
    + intros p [= <-]. split; [reflexivity | lia].
  - (* Draw *)
    destruct (whandle c) as [p|] eqn:Hp; [|discriminate].
    destruct ((0 <=? i) && (i <? kFrameSize)); [|discriminate].
    injection Hstep as <-.
    destruct (Hwh p eq_refl) as [-> Hfull].
    split; simpl.
    + apply ring_with_frames; [assumption | apply length_store].
    + intros p [= <-]. split; [reflexivity | assumption].
    + assumption.
    + rewrite pending_draw by assumption. assumption.
  - (* Commit *)
    destruct (whandle c) as [p|] eqn:Hp; [|discriminate].
    injection Hstep as <-.
    destruct (Hwh p eq_refl) as [-> Hfull].
    assert (Hw : writeable (pool c) = true) by now apply writeable_spec.
    split; simpl pool; simpl whandle; simpl rhandle;
      simpl committed; simpl released.
    + now apply written_keeps_ring.
    + discriminate.
    + intros q Hq. destruct (Hrh q Hq) as [-> Hpos].
      split; [reflexivity|].
      rewrite (written_count frames_range _ Hring Hw). lia.
    + rewrite pending_written by assumption.
      rewrite Hfifo. now rewrite <- app_assoc.
  - (* PeekReadable *)
    unfold readable_frame in Hstep.
    destruct (readable_count_ (pool c) =? 0) eqn:Hempty;
      injection Hstep as <-; split; simpl; try assumption.
    + discriminate.
    + intros q [= <-]. destruct Hring as [_ Hc _ _].
      split; [reflexivity | lia].
  - (* Release *)
    destruct (rhandle c) as [q|] eqn:Hq; [|discriminate].
    injection Hstep as <-.
    destruct (Hrh q eq_refl) as [-> Hpos].
    assert (Hrd : readable (pool c) = true) by now apply readable_spec.
    split; simpl pool; simpl whandle; simpl rhandle;
      simpl committed; simpl released.
    + now apply read_keeps_ring.
    + intros p Hp. destruct (Hwh p Hp) as [-> Hfull].
      split; [reflexivity|].
      rewrite (read_count frames_range _ Hring Hrd). lia.
    + discriminate.
    + rewrite Hfifo, (pending_read (pool c) Hring Hrd).
      now rewrite <- app_assoc.
Qed.

Lemma coherent_run (acts : list action) (c c' : Client.t) :
  coherent c → run acts c = Some c' → coherent c'.
Proof.
  revert c. induction acts as [|a acts IH]; intros c Hc Hrun.
  - simpl in Hrun. now injection Hrun as <-.
  - simpl in Hrun. destruct (step a c) as [c1|] eqn:Hstep; [|discriminate].
    eauto using coherent_step.
Qed.

(** In a ring, the write and the read index coincide only when the
    pool is empty or full. *)
Lemma ring_indices_differ (fb : FrameBuffer.t) :
  ring fb → 0 < readable_count_ fb < kNumFrames →
  write_frame_ fb ≠ read_frame_ fb.
Proof.
  intros Hring Hc.
  rewrite <- (queued_slot_first fb Hring).
  apply not_eq_sym, queued_slot_not_writable; [assumption | lia | lia].
Qed.

(** C1 (mutual exclusion of handles).  After any legal sequence of
    client actions from [Init]: [writeable_frame] and [readable_frame]
    never both return pointers into the same slot; with
    [0 < readable_count_ < kNumFrames] the write and the read index
    differ; with the pool empty or full one of the two calls returns
    [nullptr]; and the pointers the producer and the consumer hold
    never point into the same slot. *)
Theorem mutual_exclusion (fb0 : FrameBuffer.t) (acts : list action)
    (c : Client.t) :
  run acts (start fb0) = Some c →
  (∀ p q, (writeable_frame (pool c)).1 = Some p →
          (readable_frame (pool c)).1 = Some q → slot p ≠ slot q) ∧
  (0 < readable_count_ (pool c) < kNumFrames →
   write_frame_ (pool c) ≠ read_frame_ (pool c)) ∧
  (readable_count_ (pool c) = 0 ∨ readable_count_ (pool c) = kNumFrames →
   (writeable_frame (pool c)).1 = None ∨
   (readable_frame (pool c)).1 = None) ∧
  (∀ p q, whandle c = Some p → rhandle c = Some q → slot p ≠ slot q).
Proof.
  intros Hrun.
  pose proof (coherent_run acts _ c (coherent_start fb0) Hrun)
    as [Hring Hwh Hrh _].
  repeat split.
  - intros p q. unfold writeable_frame, readable_frame.
    destruct (readable_count_ (pool c) >=? kNumFrames) eqn:Hfull;
      [discriminate|].
    destruct (readable_count_ (pool c) =? 0) eqn:Hempty; [discriminate|].
    simpl. intros [= <-] [= <-]. simpl.
    pose proof (ring_count _ Hring) as Hc.
    apply ring_indices_differ; [assumption | lia].
  - now apply ring_indices_differ.
  - intros [Hz | Hn]; unfold writeable_frame, readable_frame.
    + right. now rewrite Hz.
    + left. rewrite Hn.
      replace (kNumFrames >=? kNumFrames) with true; [reflexivity|].
      symmetry. apply Z.geb_le. lia.
  - intros p q Hp Hq.
    destruct (Hwh p Hp) as [-> Hfull].
    destruct (Hrh q Hq) as [-> Hpos]. simpl.
    apply ring_indices_differ; [assumption | lia].
Qed.

(** C5 (FIFO order).  After any legal sequence of client actions from
    [Init], the [i]-th released frame (slot and bytes) is the [i]-th
    committed one: the releases are a prefix of the commits, and the
    commits not yet released are the frames queued in the ring. *)
Theorem fifo_order (fb0 : FrameBuffer.t) (acts : list action)
    (c : Client.t) :
  run acts (start fb0) = Some c →
  (∀ (i : nat) x, released c !! i = Some x → committed c !! i = Some x) ∧
  released c = take (length (released c)) (committed c) ∧
  committed c = released c ++ pending (pool c).
Proof.
  intros Hrun.
  pose proof (coherent_run acts _ c (coherent_start fb0) Hrun)
    as [_ _ _ Hfifo].
  repeat split.
  - intros i x Hx. rewrite Hfifo. now apply lookup_app_l_Some.
  - rewrite Hfifo. now rewrite take_app_length.
  - exact Hfifo.
Qed.

End Facts.
End ClientFacts.

Lemma mutual_exclusion_witness :
  ∃ c, @Client.run Teensy41 double_buffer both_at_work
         (@Client.start double_buffer garbage_pool) = Some c ∧
       Client.whandle c = Some (Ptr 1 0) ∧
       Client.rhandle c = Some (Ptr 0 0) ∧
       (∀ p q, Client.whandle c = Some p → Client.rhandle c = Some q →
               slot p ≠ slot q).
Proof.
  eexists. split; [vm_compute; reflexivity|].
  split; [reflexivity|]. split; [reflexivity|].
  refine (proj2 (proj2 (proj2
    (@ClientFacts.mutual_exclusion Teensy41 double_buffer _
       garbage_pool both_at_work _ _)))).
  - simpl. lia.
  - vm_compute. reflexivity.
Defined.

Lemma fifo_order_witness :
  ∃ c, @Client.run Teensy41 tiny_pool three_frames
         (@Client.start tiny_pool garbage_pool) = Some c ∧
       Client.committed c
       = [(0, [170; 0; 0; 0]); (1, [187; 0; 0; 0]); (0, [204; 0; 0; 0])] ∧
       Client.released c = take 3 (Client.committed c).
Proof.
  eexists. split; [vm_compute; reflexivity|].
  split; [reflexivity|].
  refine (proj1 (proj2
    (@ClientFacts.fifo_order Teensy41 tiny_pool _
       garbage_pool three_frames _ _))).
  - simpl. lia.
  - vm_compute. reflexivity.
Defined.

(** ** The paged driver *)

Module PagedDisplayDriverFacts.
Import PagedDisplayDriver.

Section Facts.
Context `{Target} {Dev : Type} `{display_driver Dev}.

(** The two ways through [Update]. *)
Lemma Update_idle (mem : memory) (d : t) (s : Dev) :
  frame_ d = None → Update mem d s = (d, s, []).
Proof. intros Hf. unfold Update. now rewrite Hf. Qed.

Lemma Update_sends (mem : memory) (d : t) (s : Dev) (frame : ptr) :
  frame_ d = Some frame →
  ∃ accepted s',
    SendPage (to_uint_fast8 (page_ d)) frame mem s = (accepted, s') ∧
    Update mem d s
    = (if accepted then
         {| frame_ := if wrap (page_ d + 1) >=? kNumPages then None
                      else Some (ptr_add frame kPageSize);
            page_ := wrap (page_ d + 1) |}
       else d,
       s',
       [CallSendPage (to_uint_fast8 (page_ d)) frame
          (load_bytes mem frame kPageSize) accepted]).
Proof.
  intros Hf. unfold Update. rewrite Hf.
  destruct (SendPage (to_uint_fast8 (page_ d)) frame mem s)
    as [accepted s'].
  exists accepted, s'. split; [reflexivity|]. now destruct accepted.
Qed.

Lemma Update_rejected (mem : memory) (d : t) (s s' : Dev) (frame : ptr) :
  frame_ d = Some frame →
  SendPage (to_uint_fast8 (page_ d)) frame mem s = (false, s') →
  Update mem d s
  = (d, s', [CallSendPage (to_uint_fast8 (page_ d)) frame
               (load_bytes mem frame kPageSize) false]).
Proof.
  intros Hf Hsend.
  destruct (Update_sends mem d s frame Hf) as (acc & s1 & Hs & ->).
  rewrite Hsend in Hs. now injection Hs as <- <-.
Qed.

Lemma Update_calls_once (mem : memory) (d : t) (s : Dev) :
  (length (Update mem d s).2 <= 1)%nat.
Proof.
  destruct (frame_ d) as [frame|] eqn:Hf.
  - destruct (Update_sends mem d s frame Hf) as (acc & s1 & _ & ->).
    simpl. lia.
  - rewrite Update_idle by assumption. simpl. lia.
Qed.

Lemma Update_page_step (mem : memory) (d : t) (s : Dev) :
  0 < size_bits → 0 <= page_ d →
  0 <= page_ (Update mem d s).1.1 <= page_ d + 1.
Proof.
  intros Hw Hp.
  destruct (frame_ d) as [frame|] eqn:Hf.
  - destruct (Update_sends mem d s frame Hf) as (acc & s1 & _ & ->).
    destruct acc; simpl; [|lia].
    pose proof (wrap_bounds (page_ d + 1) Hw).
    pose proof (wrap_succ_le (page_ d) Hw Hp). lia.
  - rewrite Update_idle by assumption. simpl. lia.
Qed.

Lemma page_pending_Update (mem : memory) (d : t) (s : Dev) :
  0 < size_bits → page_pending d → page_pending (Update mem d s).1.1.
Proof.
  intros Hw Hd.
  destruct (frame_ d) as [frame|] eqn:Hf.
  - destruct (Update_sends mem d s frame Hf) as (acc & s1 & _ & ->).
    destruct acc; simpl; [|assumption].
    unfold page_pending. simpl.
    pose proof (wrap_bounds (page_ d + 1) Hw).
    destruct (wrap (page_ d + 1) >=? kNumPages) eqn:Hlast;
      [congruence|]. intros _. lia.
  - rewrite Update_idle by assumption. assumption.
Qed.

Lemma page_pending_Begin (frame : option ptr) (d : t) :
  0 < kNumPages → page_pending (Begin frame d).
Proof. intros Hn _. simpl. lia. Qed.

Lemma page_pending_Init (d : t) (s : Dev) : page_pending (Init d s).1.
Proof. intros Hf. simpl in Hf. congruence. Qed.

End Facts.
End PagedDisplayDriverFacts.

(** ** The ILI9341 sink *)

Module ILI9341_DriverFacts.
Import PagedDisplayDriver PagedDisplayDriverFacts.

Section Facts.
Context `{Target}.

Lemma SendPage_uninitialised (index : Z) (data : ptr) (mem : memory)
    (s : ILI9341_Driver.state) :
  ILI9341_Driver.display_initialized s = false →
  ILI9341_Driver.SendPage index data mem s = (false, s).
Proof. intros Hi. unfold ILI9341_Driver.SendPage. now rewrite Hi. Qed.

Lemma SendPage_out_of_range (index : Z) (data : ptr) (mem : memory)
    (s : ILI9341_Driver.state) :
  ILI9341_Driver.kNumPages <= index →
  ILI9341_Driver.SendPage index data mem s = (false, s).
Proof.
  intros Hi. unfold ILI9341_Driver.SendPage.
  destruct (negb (ILI9341_Driver.display_initialized s)); [reflexivity|].
  replace (index >=? ILI9341_Driver.kNumPages) with true; [reflexivity|].
  symmetry. apply Z.geb_le. exact Hi.
Qed.

(** C10 (sink rejection guard).  When the display has not been
    initialised or the page index is at least [kNumPages],
    [ILI9341_Driver::SendPage] returns false and leaves all of the
    driver's statics as they were: nothing is copied into
    [page_buffer], no dirty flag is set and no call reaches [tft].  A
    [PagedDisplayDriver::Update] whose call of [SendPage] meets one of
    the two conditions therefore keeps [frame_] and [page_] (and the
    sink) unchanged, having made that one rejected call. *)
Theorem SendPage_guard (index : Z) (data : ptr) (mem : memory)
    (s : ILI9341_Driver.state) (d : PagedDisplayDriver.t) (frame : ptr) :
  (ILI9341_Driver.display_initialized s = false ∨
   ILI9341_Driver.kNumPages <= index →
   ILI9341_Driver.SendPage index data mem s = (false, s)) ∧
  (frame_ d = Some frame →
   ILI9341_Driver.display_initialized s = false ∨
   ILI9341_Driver.kNumPages <= to_uint_fast8 (page_ d) →
   Update mem d s
   = (d, s, [CallSendPage (to_uint_fast8 (page_ d)) frame
               (load_bytes mem frame kPageSize) false])).
Proof.
  assert (Hguard : ∀ i p,
             ILI9341_Driver.display_initialized s = false ∨
             ILI9341_Driver.kNumPages <= i →
             ILI9341_Driver.SendPage i p mem s = (false, s)).
  { intros i p [Hi | Hi];
      auto using SendPage_uninitialised, SendPage_out_of_range. }
  split; [apply Hguard|].
  intros Hf Hcond.
  apply (Update_rejected mem d s s frame Hf).
  apply Hguard, Hcond.
Qed.

End Facts.
End ILI9341_DriverFacts.

Lemma SendPage_guard_witness :
  let d := {| PagedDisplayDriver.frame_ := Some (Ptr 0 0);
              PagedDisplayDriver.page_ := 0 |} in
  let mem := FrameBuffer.frames_ (display.frame_buffer Scenario.one_queued) in
  (PagedDisplayDriver.Update mem d ILI9341_Driver.statics).1
  = (d, ILI9341_Driver.statics).
Proof.
  intros d mem.
  rewrite (proj2 (ILI9341_DriverFacts.SendPage_guard
                    0 (Ptr 0 0) mem ILI9341_Driver.statics d (Ptr 0 0))
             eq_refl (or_introl eq_refl)).
  reflexivity.
Defined.

(** ** The display layer *)

Module displayFacts.
Import display PagedDisplayDriverFacts.

Lemma length_load_bytes (mem : memory) (p : ptr) (n : Z) :
  length (load_bytes mem p n) = Z.to_nat n.
Proof. unfold load_bytes. now rewrite length_fmap, length_seqZ. Qed.

Lemma repeat_commutes {A : Type} (a : list A) (n : nat) :
  concat (replicate n a) ++ a = a ++ concat (replicate n a).
Proof.
  induction n as [|n IH]; simpl.
  - now rewrite app_nil_r.
  - now rewrite <- app_assoc, IH.
Qed.

Section Facts.
Context `{Target} {Dev : Type} `{display_driver Dev}.
Local Existing Instance pool_params.

Lemma since_new (st : state Dev) (new before : list call) :
  trace st = new ++ before → since before st = new.
Proof.
  intros Ht. unfold since. rewrite Ht, length_app.
  replace (length new + length before - length before)%nat
    with (length new) by lia.
  apply take_app_length.
Qed.

Lemma since_same (st : state Dev) : since (trace st) st = [].
Proof. now apply since_new. Qed.

(** [display::Update] with a frame in flight: one call of the sink. *)
Lemma Update_in_flight (st : state Dev) (frame : ptr) :
  let d := driver st in
  let mem := FrameBuffer.frames_ (frame_buffer st) in
  let index := to_uint_fast8 (PagedDisplayDriver.page_ d) in
  PagedDisplayDriver.frame_ d = Some frame →
  ∃ accepted s',
    SendPage index frame mem (device st) = (accepted, s') ∧
    Update st
    = {| frame_buffer := frame_buffer st;
         driver :=
           if accepted then
             {| PagedDisplayDriver.frame_ :=
                  if wrap (PagedDisplayDriver.page_ d + 1) >=? kNumPages
                  then None else Some (ptr_add frame kPageSize);
                PagedDisplayDriver.page_ :=
                  wrap (PagedDisplayDriver.page_ d + 1) |}
           else d;
         device := s';
         trace := attempt index frame mem accepted ++ trace st |}.
Proof.
  intros d mem index Hf.
  destruct (Update_sends mem d (device st) frame Hf)
    as (acc & s' & Hsend & Hupd).
  exists acc, s'. split; [exact Hsend|].
  unfold Update, PagedDisplayDriver.frame_valid.
  fold d. rewrite Hf. fold mem. rewrite Hupd. reflexivity.
Qed.

(** [display::Update] without a frame in flight: the sink is not
    called; the oldest published frame, if any, is begun. *)
Lemma Update_no_frame (st : state Dev) :
  PagedDisplayDriver.frame_ (driver st) = None →
  Update st
  = {| frame_buffer := frame_buffer st;
       driver :=
         if FrameBuffer.readable (frame_buffer st) then
           PagedDisplayDriver.Begin
             (FrameBuffer.readable_frame (frame_buffer st)).1 (driver st)
         else driver st;
       device := device st;
       trace := CallUpdate :: trace st |}.
Proof.
  intros Hf. unfold Update, PagedDisplayDriver.frame_valid. rewrite Hf.
  destruct (FrameBuffer.readable (frame_buffer st)); [|reflexivity].
  unfold FrameBuffer.readable_frame.
  now destruct (FrameBuffer.readable_count_ (frame_buffer st) =? 0).
Qed.

(** C8 (bounded work per call).  One call of [display::Update] makes at
    most one call of [SendPage]: without a frame in flight the sink is
    left as it was; with one, the sink is what a single call of
    [SendPage] for the page [page_] at [frame_] makes of it, and that call
    with its outcome is what the trace records.  The page handed over is
    the [kPageSize] bytes at [frame_], the bytes of the pool are not
    changed, and [page_] grows by at most 1. *)
Theorem bounded_step (st : state Dev) :
  0 < size_bits → 0 <= kPageSize →
  0 <= PagedDisplayDriver.page_ (driver st) →
  let mem := FrameBuffer.frames_ (frame_buffer st) in
  let page := to_uint_fast8 (PagedDisplayDriver.page_ (driver st)) in
  let sent := sent_pages (since (trace st) (Update st)) in
  match PagedDisplayDriver.frame_ (driver st) with
  | None =>
      device (Update st) = device st ∧
      since (trace st) (Update st) = [CallUpdate]
  | Some frame =>
      device (Update st) = (SendPage page frame mem (device st)).2 ∧
      since (trace st) (Update st)
      = attempt page frame mem (SendPage page frame mem (device st)).1
  end ∧
  (length sent <= 1)%nat ∧
  (∀ index bytes, (index, bytes) ∈ sent →
     ∃ frame, PagedDisplayDriver.frame_ (driver st) = Some frame ∧
       bytes = load_bytes mem frame kPageSize ∧
       Z.of_nat (length bytes) = kPageSize) ∧
  FrameBuffer.frames_ (frame_buffer (Update st)) = mem ∧
  PagedDisplayDriver.page_ (driver (Update st))
  <= PagedDisplayDriver.page_ (driver st) + 1.
Proof.
  intros Hw Hsize Hp mem page.
  destruct (PagedDisplayDriver.frame_ (driver st)) as [frame|] eqn:Hf.
  - destruct (Update_in_flight st frame Hf) as (acc & s' & Hsend & ->).
    fold mem page in Hsend |- *. rewrite Hsend.
    cbn zeta. erewrite since_new by reflexivity.
    split; [split; reflexivity|].
    simpl sent_pages. split; [simpl; lia|]. split.
    + intros index bytes [[= -> ->] | Hin%elem_of_nil]%elem_of_cons;
        [|contradiction].
      exists frame. split; [reflexivity|]. split; [reflexivity|].
      rewrite length_load_bytes. lia.
    + split; [reflexivity|].
      destruct acc; simpl; [|lia].
      now apply wrap_succ_le.
  - rewrite (Update_no_frame st Hf).
    cbn zeta. erewrite (since_new _ [CallUpdate]) by reflexivity.
    split; [split; reflexivity|].
    simpl sent_pages. split; [simpl; lia|]. split.
    + intros index bytes Hin%elem_of_nil. contradiction.
    + split.
      * simpl. unfold mem.
        now destruct (FrameBuffer.readable (frame_buffer st)).
      * simpl. destruct (FrameBuffer.readable (frame_buffer st)); simpl; lia.
Qed.

Lemma Update_rejected_step (st : state Dev) (frame : ptr) (s' : Dev) :
  let mem := FrameBuffer.frames_ (frame_buffer st) in
  let index := to_uint_fast8 (PagedDisplayDriver.page_ (driver st)) in
  PagedDisplayDriver.frame_ (driver st) = Some frame →
  SendPage index frame mem (device st) = (false, s') →
  Update st
  = {| frame_buffer := frame_buffer st; driver := driver st;
       device := s';
       trace := attempt index frame mem false ++ trace st |}.
Proof.
  intros mem index Hf Hsend.
  destruct (Update_in_flight st frame Hf) as (acc & s1 & Hs & ->).
  fold mem index in Hs. rewrite Hsend in Hs. now injection Hs as <- <-.
Qed.

Lemma Updates_rejected (n : nat) (st : state Dev) (frame : ptr) :
  let mem := FrameBuffer.frames_ (frame_buffer st) in
  let index := to_uint_fast8 (PagedDisplayDriver.page_ (driver st)) in
  PagedDisplayDriver.frame_ (driver st) = Some frame →
  rejecting n index frame mem (device st) = true →
  driver (Updates n st) = driver st ∧
  frame_buffer (Updates n st) = frame_buffer st ∧
  device (Updates n st) = resent n index frame mem (device st) ∧
  trace (Updates n st)
  = concat (replicate n (attempt index frame mem false)) ++ trace st.
Proof.
  revert st. induction n as [|n IH]; intros st mem index Hf Hrej.
  - simpl. auto.
  - simpl in Hrej.
    destruct (SendPage index frame mem (device st)) as [acc s'] eqn:Hsend.
    apply andb_true_iff in Hrej as [Hacc Hrest].
    apply negb_true_iff in Hacc. subst acc.
    pose proof (Update_rejected_step st frame s' Hf Hsend) as Hupd.
    fold mem index in Hupd.
    simpl Updates. simpl resent. rewrite Hsend. cbn [snd].
    rewrite Hupd.
    match goal with |- context [Updates n ?st1] =>
      destruct (IH st1) as (Hd & Hfb & Hdev & Htr);
        [exact Hf | exact Hrest |]
    end.
    split; [exact Hd|]. split; [exact Hfb|]. split; [exact Hdev|].
    rewrite Htr.
    change (concat (replicate n (attempt index frame mem false))
            ++ (attempt index frame mem false ++ trace st)
            = (attempt index frame mem false
               ++ concat (replicate n (attempt index frame mem false)))
              ++ trace st).
    rewrite app_assoc, repeat_commutes. reflexivity.
Qed.

(** C7 (idempotent retry).  While the sink turns the page down, each
    call of [display::Update] leaves [page_], [frame_] and the pool's
    bytes as they are and calls [SendPage] once with the same page index
    and the same pointer to the same bytes: after [n] such calls the sink
    is what [n] calls of [SendPage] with these arguments make of it, and
    the trace holds these [n] rejected calls.  The next call of
    [display::Update] calls [SendPage] with these very arguments again:
    the sink is what this one further call makes of it, the trace records
    the call with its outcome, and if it is turned down once more
    [page_] and [frame_] stay. *)
Theorem idempotent_retry (n : nat) (st : state Dev) (frame : ptr) :
  let mem := FrameBuffer.frames_ (frame_buffer st) in
  let index := to_uint_fast8 (PagedDisplayDriver.page_ (driver st)) in
  PagedDisplayDriver.frame_ (driver st) = Some frame →
  rejecting n index frame mem (device st) = true →
  let st' := Updates n st in
  driver st' = driver st ∧
  frame_buffer st' = frame_buffer st ∧
  device st' = resent n index frame mem (device st) ∧
  since (trace st) st'
  = concat (replicate n (attempt index frame mem false)) ∧
  device (Update st') = (SendPage index frame mem (device st')).2 ∧
  since (trace st') (Update st')
  = attempt index frame mem (SendPage index frame mem (device st')).1 ∧
  frame_buffer (Update st') = frame_buffer st ∧
  ((SendPage index frame mem (device st')).1 = false →
   driver (Update st') = driver st).
Proof.
  intros mem index Hf Hrej st'.
  destruct (Updates_rejected n st frame Hf Hrej) as (Hd & Hfb & Hdev & Htr).
  fold mem index st' in Hd, Hfb, Hdev, Htr.
  split; [exact Hd|]. split; [exact Hfb|]. split; [exact Hdev|]. split.
  - now apply since_new.
  - assert (Hf' : PagedDisplayDriver.frame_ (driver st') = Some frame)
      by now rewrite Hd.
    destruct (Update_in_flight st' frame Hf') as (acc & s1 & Hsend & Hupd).
    rewrite Hd, Hfb in Hsend, Hupd. fold mem index in Hsend, Hupd.
    rewrite Hupd, Hsend. cbn [device frame_buffer driver fst snd].
    split; [reflexivity|].
    split; [now erewrite since_new by reflexivity|].
    split; [reflexivity|].
    now intros ->.
Qed.

(** C3 (release while idle underflows).  Whenever the paged driver holds
    no frame, [display::Flush] calls [frame_buffer.read()]; if
    [readable_count_] is 0 at that moment it wraps to the largest
    [size_t], after which [writeable()] is false and [readable()] is
    true although nothing has been published. *)
Theorem flush_idle_underflow (st : state Dev) :
  FrameBuffer.kNumFrames < 2 ^ size_bits →
  PagedDisplayDriver.frame_ (driver st) = None →
  frame_buffer (Flush st) = FrameBuffer.read (frame_buffer st) ∧
  (FrameBuffer.readable_count_ (frame_buffer st) = 0 →
   FrameBuffer.readable_count_ (frame_buffer (Flush st))
   = 2 ^ size_bits - 1 ∧
   FrameBuffer.writeable (frame_buffer (Flush st)) = false ∧
   FrameBuffer.readable (frame_buffer (Flush st)) = true).
Proof.
  intros Hrange Hf.
  assert (Hfl : frame_buffer (Flush st) = FrameBuffer.read (frame_buffer st)).
  { unfold Flush, PagedDisplayDriver.Flush. now rewrite Hf. }
  split; [exact Hfl|]. intros Hzero. rewrite Hfl.
  assert (Hw : 0 < size_bits)
    by (apply (size_bits_positive FrameBuffer.kNumFrames);
        [simpl; lia | exact Hrange]).
  assert (Hcount : FrameBuffer.readable_count_
                     (FrameBuffer.read (frame_buffer st))
                   = 2 ^ size_bits - 1).
  { simpl. rewrite Hzero. now apply wrap_minus_one. }
  split; [exact Hcount|].
  unfold FrameBuffer.writeable, FrameBuffer.readable. rewrite Hcount.
  simpl FrameBuffer.kNumFrames in *.
  split; [apply Z.ltb_ge | rewrite Z.gtb_ltb; apply Z.ltb_lt]; lia.
Qed.

Lemma probe_full (st : state Dev) :
  FrameBuffer.readable_count_ (frame_buffer st) = FrameBuffer.kNumFrames →
  probe st = (None, st).
Proof.
  intros Hfull. unfold probe, FrameBuffer.writeable.
  rewrite Hfull, Z.ltb_irrefl. reflexivity.
Qed.

(** C9 (non-blocking drop).  With the pool full,
    [GRAPHICS_BEGIN_FRAME(false)] ends after a single pass of its loop
    with the frame dropped: the drawing block is skipped, nothing is
    committed and the whole display state is as before; and
    [writeable_frame] itself returns [nullptr] without changing the
    pool. *)
Theorem nonblocking_drop (fuel : nat) (render : list Z → list Z)
    (st : state Dev) :
  FrameBuffer.readable_count_ (frame_buffer st) = FrameBuffer.kNumFrames →
  graphics_frame (S fuel) false render st = Some (Dropped, st) ∧
  FrameBuffer.writeable_frame (frame_buffer st) = (None, frame_buffer st).
Proof.
  intros Hfull. split.
  - unfold graphics_frame. simpl acquire.
    now rewrite (probe_full st Hfull).
  - unfold FrameBuffer.writeable_frame. rewrite Hfull.
    replace (FrameBuffer.kNumFrames >=? FrameBuffer.kNumFrames) with true;
      [reflexivity|].
    symmetry. apply Z.geb_le. lia.
Qed.

(** C4, as the code has it (the wait is a plain spin).  With the pool
    full, a pass of the loop of [GRAPHICS_BEGIN_FRAME(true)] only
    evaluates [writeable()]: it calls neither [display::Update] nor the
    sink and leaves the whole display state as it was, so the loop by
    itself never comes to an end, however many passes it makes. *)
Theorem blocking_wait_spins (st : state Dev) :
  FrameBuffer.readable_count_ (frame_buffer st) = FrameBuffer.kNumFrames →
  probe st = (None, st) ∧
  pass_services_step st = false ∧
  ∀ fuel render, acquire fuel true st = None ∧
                 graphics_frame fuel true render st = None.
Proof.
  intros Hfull.
  pose proof (probe_full st Hfull) as Hprobe.
  split; [exact Hprobe|]. split.
  - unfold pass_services_step. rewrite Hprobe. simpl.
    now rewrite since_same.
  - assert (Hacq : ∀ fuel, acquire fuel true st = None).
    { induction fuel as [|fuel IH]; simpl; [reflexivity|].
      now rewrite Hprobe. }
    intros fuel render. split; [apply Hacq|].
    unfold graphics_frame. now rewrite Hacq.
Qed.

End Facts.
End displayFacts.

(** ** The theorems at work on the ILI9341 display *)

Lemma bounded_step_witness :
  let st := Scenario.from_now Scenario.last_page_due in
  let st' := @display.Update Teensy41 _ Scenario.counted_ILI9341 st in
  (display.device st).2 = 0 ∧ (display.device st').2 = 1 ∧
  (length (sent_pages (display.since (display.trace st) st')) <= 1)%nat ∧
  PagedDisplayDriver.page_ (display.driver st') <= 7 + 1.
Proof.
  intros st st'.
  destruct (@displayFacts.bounded_step Teensy41 _ Scenario.counted_ILI9341 st)
    as (Hsink & Hone & _ & _ & Hpage).
  - simpl. lia.
  - vm_compute. discriminate.
  - vm_compute. discriminate.
  - assert (Hf : PagedDisplayDriver.frame_ (display.driver st)
                 = Some (Ptr 0 896)) by reflexivity.
    rewrite Hf in Hsink. destruct Hsink as [Hdev _].
    split; [reflexivity|]. split; [|split; [exact Hone | exact Hpage]].
    refine (eq_trans (f_equal snd Hdev) _). vm_compute. reflexivity.
Defined.

Lemma idempotent_retry_witness :
  let st := Scenario.from_now Scenario.begun_uninitialised in
  let st' := @display.Updates Teensy41 _ Scenario.counted_ILI9341 5 st in
  let next := @display.Update Teensy41 _ Scenario.counted_ILI9341 st' in
  display.driver st' = display.driver st ∧
  display.frame_buffer st' = display.frame_buffer st ∧
  (display.device st).2 = 0 ∧ (display.device st').2 = 5 ∧
  (display.device next).2 = 6 ∧
  sent_pages (display.since (display.trace st) st')
  = replicate 5 (0, replicate 128 0) ∧
  sent_pages (display.since (display.trace st') next)
  = [(0, replicate 128 0)].
Proof.
  intros st st' next.
  destruct (@displayFacts.idempotent_retry Teensy41 _ Scenario.counted_ILI9341
              5 st (Ptr 0 0))
    as (Hd & Hfb & Hdev & Htr & Hnext & Hlog & _).
  - reflexivity.
  - vm_compute. reflexivity.
  - split; [exact Hd|]. split; [exact Hfb|]. split; [reflexivity|].
    split; [refine (eq_trans (f_equal snd Hdev) _); vm_compute; reflexivity|].
    split; [refine (eq_trans (f_equal snd Hnext) _); vm_compute; reflexivity|].
    split.
    + refine (eq_trans (f_equal sent_pages Htr) _). vm_compute. reflexivity.
    + refine (eq_trans (f_equal sent_pages Hlog) _). vm_compute. reflexivity.
Defined.

Lemma flush_idle_underflow_witness :
  FrameBuffer.readable_count_
    (display.frame_buffer (display.Flush Scenario.booted))
  = 4294967295.
Proof.
  destruct (displayFacts.flush_idle_underflow Scenario.booted)
    as (_ & Hwrap).
  - simpl. lia.
  - reflexivity.
  - destruct Hwrap as (Hcount & _); [reflexivity|]. exact Hcount.
Defined.

Lemma nonblocking_drop_witness :
  display.graphics_frame 1 false (Scenario.fill 85) Scenario.pool_full
  = Some (display.Dropped, Scenario.pool_full).
Proof.
  refine (proj1 (displayFacts.nonblocking_drop 0 (Scenario.fill 85)
                   Scenario.pool_full _)).
  vm_compute. reflexivity.
Defined.

(** C4 as stated fails.  With both frames of the ILI9341 display published
    and the sink ready to accept pages, a waiting pass of
    [GRAPHICS_BEGIN_FRAME(true)] makes no call of [display::Update], and a
    thousand passes later the loop is still waiting. *)
Lemma cooperative_wait_counterexample :
  FrameBuffer.readable_count_ (display.frame_buffer Scenario.pool_full)
  = @FrameBuffer.kNumFrames display.pool_params ∧
  ILI9341_Driver.display_initialized (display.device Scenario.pool_full)
  = true ∧
  display.pass_services_step Scenario.pool_full = false ∧
  display.acquire 1000 true Scenario.pool_full = None.
Proof. vm_compute. repeat split. Qed.

Lemma blocking_wait_spins_witness :
  display.probe Scenario.pool_full = (None, Scenario.pool_full) ∧
  ∀ fuel, display.acquire fuel true Scenario.pool_full = None.
Proof.
  destruct (displayFacts.blocking_wait_spins Scenario.pool_full)
    as (Hprobe & _ & Hloop).
  - vm_compute. reflexivity.
  - split; [exact Hprobe|].
    intros fuel. exact (proj1 (Hloop fuel (Scenario.fill 0))).
Defined.


(** * Further properties of the code *)

(** ** The frame pool beyond its guards *)

Module PoolFacts.
Import FrameBuffer FrameBufferFacts.

Section Facts.
Context `{Target} `{Params}.

Lemma exec_in_bounds (o : op) (fb : t) :
  0 < kNumFrames →
  0 <= write_frame_ fb < kNumFrames ∧ 0 <= read_frame_ fb < kNumFrames ∧
  length (frames_ fb) = Z.to_nat kNumFrames →
  0 <= write_frame_ (exec o fb) < kNumFrames ∧
  0 <= read_frame_ (exec o fb) < kNumFrames ∧
  length (frames_ (exec o fb)) = Z.to_nat kNumFrames.
Proof.
  intros Hn (Hw & Hr & Hlen).
  destruct o; simpl.
  - pose proof (Z.mod_pos_bound (wrap (write_frame_ fb + 1)) kNumFrames Hn).
    auto.
  - pose proof (Z.mod_pos_bound (wrap (read_frame_ fb + 1)) kNumFrames Hn).
    auto.
Qed.

(** X1.  Whatever sequence of [written()] and [read()] calls follows
    [Init], legal or not, both ring indices stay below [kNumFrames], so
    every pointer [writeable_frame] or [readable_frame] hands out is the
    start of one of the [kNumFrames] frames of [frames_]. *)
Theorem indices_stay_in_bounds (ops : list op) (fb0 : t) :
  0 < kNumFrames →
  let fb := apply ops (Init fb0) in
  (0 <= write_frame_ fb < kNumFrames ∧ 0 <= read_frame_ fb < kNumFrames) ∧
  ∀ p, (writeable_frame fb).1 = Some p ∨ (readable_frame fb).1 = Some p →
       offset p = 0 ∧ ∃ bytes, frames_ fb !! Z.to_nat (slot p) = Some bytes.
Proof.
  intros Hn fb.
  assert (Hinv : 0 <= write_frame_ fb < kNumFrames ∧
                 0 <= read_frame_ fb < kNumFrames ∧
                 length (frames_ fb) = Z.to_nat kNumFrames).
  { subst fb. unfold apply.
    generalize (Init fb0), (conj (conj (Z.le_refl 0) Hn)
                    (conj (conj (Z.le_refl 0) Hn)
                          (length_replicate (Z.to_nat kNumFrames)
                             (replicate (Z.to_nat kFrameSize) 0)))
                  : 0 <= write_frame_ (Init fb0) < kNumFrames ∧
                    0 <= read_frame_ (Init fb0) < kNumFrames ∧
                    length (frames_ (Init fb0)) = Z.to_nat kNumFrames).
    induction ops as [|o ops IH]; intros fb Hfb; [exact Hfb|].
    simpl. apply IH. now apply exec_in_bounds. }
  destruct Hinv as (Hw & Hr & Hlen).
  split; [split; assumption|].
  intros p Hp.
  assert (Hslot : offset p = 0 ∧ 0 <= slot p < kNumFrames).
  { unfold writeable_frame, readable_frame in Hp.
    destruct (readable_count_ fb >=? kNumFrames),
             (readable_count_ fb =? 0), Hp as [Hp | Hp];
      simpl in Hp; try discriminate; injection Hp as <-; simpl; auto. }
  destruct Hslot as [Hoff Hslot]. split; [exact Hoff|].
  apply lookup_lt_is_Some. rewrite Hlen. lia.
Qed.

Lemma commits_fit (n : nat) (fb : t) :
  0 < kNumFrames < 2 ^ size_bits →
  ring fb → readable_count_ fb + Z.of_nat n <= kNumFrames →
  ∃ fb', run (replicate n Written) fb = Some fb' ∧ ring fb' ∧
         readable_count_ fb' = readable_count_ fb + Z.of_nat n ∧
         read_frame_ fb' = read_frame_ fb.
Proof.
  intros Hrange. revert fb.
  induction n as [|n IH]; intros fb Hring Hfit.
  - exists fb. simpl. split; [reflexivity|]. split; [assumption|].
    split; [lia | reflexivity].
  - assert (Hw : writeable fb = true) by (apply writeable_spec; lia).
    destruct (IH (written fb)) as (fb' & Hrun & Hring' & Hc & Hr).
    + now apply written_keeps_ring.
    + rewrite written_count by assumption. lia.
    + exists fb'. simpl run. rewrite Hw.
      split; [exact Hrun|]. split; [exact Hring'|]. split.
      * rewrite Hc, written_count by assumption. lia.
      * exact Hr.
Qed.

Lemma commits_overflow (n : nat) (fb : t) :
  0 < kNumFrames < 2 ^ size_bits →
  ring fb → kNumFrames < readable_count_ fb + Z.of_nat n →
  run (replicate n Written) fb = None.
Proof.
  intros Hrange. revert fb.
  induction n as [|n IH]; intros fb Hring Hover.
  - destruct Hring as [_ Hc _ _]. lia.
  - simpl. destruct (writeable fb) eqn:Hw; [|reflexivity].
    apply IH; [now apply written_keeps_ring|].
    rewrite written_count by assumption. lia.
Qed.

(** X2.  The pool holds exactly [kNumFrames] frames: from [Init] that many
    commits in a row are legal and leave the pool full, with the write
    index back on the read index; one commit more is refused. *)
Theorem pool_capacity (fb0 : t) :
  0 < kNumFrames < 2 ^ size_bits →
  (∃ fb, run (replicate (Z.to_nat kNumFrames) Written) (Init fb0) = Some fb ∧
         readable_count_ fb = kNumFrames ∧ writeable fb = false ∧
         write_frame_ fb = read_frame_ fb) ∧
  run (replicate (S (Z.to_nat kNumFrames)) Written) (Init fb0) = None.
Proof.
  intros Hrange. split.
  - destruct (commits_fit (Z.to_nat kNumFrames) (Init fb0) Hrange)
      as (fb & Hrun & Hring & Hc & Hr).
    + now apply ring_Init.
    + simpl. lia.
    + simpl in Hc, Hr. exists fb.
      assert (Hfull : readable_count_ fb = kNumFrames) by lia.
      split; [exact Hrun|]. split; [exact Hfull|]. split.
      * unfold writeable. rewrite Hfull. apply Z.ltb_irrefl.
      * destruct Hring as [_ _ Hw _]. rewrite Hw, Hr, Hfull. simpl.
        apply Z_mod_same_full.
  - apply commits_overflow; [exact Hrange | now apply ring_Init |].
    simpl. lia.
Qed.

(** X3.  A commit and a release commute, in every state of the pool; and
    where the count is a [size_t] value the pair leaves it as it was, even
    across the wrap-around at 0 and at the largest value. *)
Theorem commit_release_commute (fb : t) :
  read (written fb) = written (read fb) ∧
  (0 <= readable_count_ fb < 2 ^ size_bits →
   readable_count_ (read (written fb)) = readable_count_ fb).
Proof.
  assert (Hcount : ∀ c, wrap (wrap (c + 1) - 1) = wrap c).
  { intros c. unfold wrap. rewrite Zminus_mod_idemp_l. f_equal. lia. }
  assert (Hcount' : ∀ c, wrap (wrap (c - 1) + 1) = wrap c).
  { intros c. unfold wrap. rewrite Zplus_mod_idemp_l. f_equal. lia. }
  split.
  - unfold read, written. simpl. f_equal. now rewrite Hcount, Hcount'.
  - intros Hc. simpl. rewrite Hcount. now apply wrap_small.
Qed.

End Facts.
End PoolFacts.

Lemma indices_stay_in_bounds_witness :
  let fb := @FrameBuffer.apply Teensy41 double_buffer
              [FrameBuffer.Read; FrameBuffer.Read; FrameBuffer.Written;
               FrameBuffer.Read]
              (@FrameBuffer.Init double_buffer garbage_pool) in
  0 <= FrameBuffer.write_frame_ fb < 2 ∧ 0 <= FrameBuffer.read_frame_ fb < 2.
Proof.
  intros fb.
  refine (proj1 (@PoolFacts.indices_stay_in_bounds Teensy41 double_buffer
                   _ garbage_pool _)).
  simpl. lia.
Defined.

Lemma pool_capacity_witness :
  @FrameBuffer.run Teensy41 double_buffer
    [FrameBuffer.Written; FrameBuffer.Written; FrameBuffer.Written]
    (@FrameBuffer.Init double_buffer garbage_pool) = None.
Proof.
  refine (proj2 (@PoolFacts.pool_capacity Teensy41 double_buffer
                   garbage_pool _)).
  simpl. lia.
Defined.

Lemma commit_release_commute_witness :
  let empty := @FrameBuffer.Init double_buffer garbage_pool in
  @FrameBuffer.readable_count_
    (@FrameBuffer.written Teensy41 double_buffer
       (@FrameBuffer.read Teensy41 double_buffer empty)) = 0.
Proof.
  intros empty.
  destruct (@PoolFacts.commit_release_commute Teensy41 double_buffer empty)
    as [Hcomm Hsame].
  rewrite <- Hcomm. apply Hsame. simpl. lia.
Defined.

(** ** The ILI9341 driver: what reaches the display *)

Module ILI9341_DriverEffects.
Import ILI9341_Driver.

Lemma fold_left_pointwise {A B : Type} (f g : B → A → B) (l : list A)
    (b : B) :
  (∀ b a, f b a = g b a) → fold_left f l b = fold_left g l b.
Proof.
  intros Hfg. revert b. induction l as [|a l IH]; intros b; simpl;
    [reflexivity|]. now rewrite Hfg, IH.
Qed.

Lemma draw_pixels {A : Type} (f : bool → A → tft_call) (l : list A)
    (s : state) :
  fold_left (λ s a, tft_do (f (flip_mode s) a) s) l s
  = {| tft := rev (f (flip_mode s) <$> l) ++ tft s;
       page_buffer := page_buffer s; page_dirty := page_dirty s;
       display_initialized := display_initialized s;
       flip_mode := flip_mode s |}.
Proof.
  revert s. induction l as [|a l IH]; intros s.
  - now destruct s.
  - simpl fold_left. rewrite IH. cbn [tft_do tft flip_mode page_buffer
      page_dirty display_initialized]. rewrite fmap_cons. simpl rev.
    now rewrite <- app_assoc.
Qed.

Lemma draw_byte_rects (col page_y_start byte : Z) (s : state) :
  draw_byte col page_y_start byte s
  = {| tft := byte_rects (flip_mode s) col page_y_start byte ++ tft s;
       page_buffer := page_buffer s; page_dirty := page_dirty s;
       display_initialized := display_initialized s;
       flip_mode := flip_mode s |}.
Proof.
  unfold draw_byte, byte_rects.
  apply (draw_pixels
           (λ flip bit, pixel_rect flip col (page_y_start + bit)
                          (Z.land (Z.shiftr byte bit) 1 =? 1))).
Qed.

Lemma draw_columns {A : Type} (g : bool → A → list tft_call) (l : list A)
    (s : state) :
  fold_left
    (λ s a, {| tft := g (flip_mode s) a ++ tft s;
               page_buffer := page_buffer s; page_dirty := page_dirty s;
               display_initialized := display_initialized s;
               flip_mode := flip_mode s |}) l s
  = {| tft := concat (rev (g (flip_mode s) <$> l)) ++ tft s;
       page_buffer := page_buffer s; page_dirty := page_dirty s;
       display_initialized := display_initialized s;
       flip_mode := flip_mode s |}.
Proof.
  revert s. induction l as [|a l IH]; intros s.
  - now destruct s.
  - simpl fold_left. rewrite IH. cbn [tft flip_mode page_buffer page_dirty
      display_initialized]. rewrite fmap_cons. simpl rev.
    rewrite concat_app. simpl concat. now rewrite app_nil_r, <- app_assoc.
Qed.

Lemma draw_page_rects (index : Z) (data : ptr) (mem : memory) (s : state) :
  draw_page index data mem s
  = {| tft := page_rects (flip_mode s) index data mem ++ tft s;
       page_buffer := page_buffer s; page_dirty := page_dirty s;
       display_initialized := display_initialized s;
       flip_mode := flip_mode s |}.
Proof.
  unfold draw_page, page_rects.
  rewrite <- (draw_columns
                (λ flip col, byte_rects flip col (index * 8)
                               (load mem data col))).
  apply fold_left_pointwise. intros s' col. apply draw_byte_rects.
Qed.

Lemma length_blocks {A B : Type} (g : A → list B) (n : nat) (l : list A) :
  (∀ a, length (g a) = n) →
  length (concat (rev (g <$> l))) = (n * length l)%nat.
Proof.
  intros Hg. induction l as [|a l IH]; [simpl; lia|].
  rewrite fmap_cons. simpl rev.
  rewrite concat_app, length_app, IH.
  simpl concat. rewrite app_nil_r, Hg. simpl length. lia.
Qed.

Lemma length_page_rects (flip : bool) (index : Z) (data : ptr)
    (mem : memory) :
  length (page_rects flip index data mem) = 1024%nat.
Proof.
  unfold page_rects.
  rewrite (length_blocks _ 8).
  - now rewrite length_seqZ.
  - intros col. unfold byte_rects.
    now rewrite length_rev, length_fmap, length_seqZ.
Qed.

Lemma pixel_rect_inside (flip : bool) (x y : Z) (on : bool) :
  0 <= x < kSourceWidth → 0 <= y < kSourceHeight →
  content_rect (pixel_rect flip x y on).
Proof.
  unfold content_rect, pixel_rect, kSourceWidth, kSourceHeight,
    DISPLAY_OFFSET_X, DISPLAY_OFFSET_Y, DISPLAY_SCALE.
  change ((320 - 128 * 2) / 2) with 32. change ((240 - 64 * 2) / 2) with 56.
  intros Hx Hy. destruct flip; repeat split; lia.
Qed.

Lemma page_rects_inside (flip : bool) (index : Z) (data : ptr)
    (mem : memory) :
  0 <= index < kNumPages →
  Forall content_rect (page_rects flip index data mem).
Proof.
  intros Hi. unfold kNumPages in Hi. unfold page_rects.
  apply Forall_concat, Forall_rev, Forall_fmap, Forall_seqZ.
  intros col Hcol. unfold compose. cbv beta. unfold byte_rects.
  apply Forall_rev, Forall_fmap, Forall_seqZ.
  intros bit Hbit. unfold compose. cbv beta.
  apply pixel_rect_inside; unfold kSourceWidth, kSourceHeight; lia.
Qed.

Lemma SendPage_accepted (index : Z) (data : ptr) (mem : memory)
    (s : state) :
  display_initialized s = true → index < kNumPages →
  SendPage index data mem s
  = (true,
     {| tft := page_rects (flip_mode s) index data mem ++ tft s;
        page_buffer := <[Z.to_nat index := load_bytes mem data kPageSize]>
                         (page_buffer s);
        page_dirty := <[Z.to_nat index := true]> (page_dirty s);
        display_initialized := true;
        flip_mode := flip_mode s |}).
Proof.
  intros Hinit Hi. unfold SendPage. rewrite Hinit. simpl negb. cbv iota.
  replace (index >=? kNumPages) with false
    by (symmetry; rewrite Z.geb_leb; apply Z.leb_gt; lia).
  now rewrite draw_page_rects.
Qed.

(** X4.  An accepted [SendPage] stores the [kPageSize] bytes at [data] as
    page [index] of [page_buffer] and marks that page dirty; every other
    page and dirty flag, the flip mode and the array sizes are as
    before. *)
Theorem SendPage_stores_page (index : Z) (data : ptr) (mem : memory)
    (s : state) :
  display_initialized s = true → 0 <= index < kNumPages → well_sized s →
  let s' := (SendPage index data mem s).2 in
  (SendPage index data mem s).1 = true ∧
  page_buffer s' !! Z.to_nat index = Some (load_bytes mem data kPageSize) ∧
  page_dirty s' !! Z.to_nat index = Some true ∧
  (∀ j : nat, j ≠ Z.to_nat index →
     page_buffer s' !! j = page_buffer s !! j ∧
     page_dirty s' !! j = page_dirty s !! j) ∧
  flip_mode s' = flip_mode s ∧ well_sized s'.
Proof.
  intros Hinit Hi [Hbuf Hdirty] s'. subst s'.
  rewrite SendPage_accepted by (assumption || lia). simpl.
  split; [reflexivity|].
  split; [apply list_lookup_insert_eq; lia|].
  split; [apply list_lookup_insert_eq; lia|].
  split.
  - intros j Hj. split; apply list_lookup_insert_ne; auto.
  - split; [reflexivity|]. split; simpl; now rewrite length_insert.
Qed.

(** X5.  An accepted [SendPage] makes exactly 1024 calls of [fillRect], one
    per bit of the page, each a [DISPLAY_SCALE]-sized square that lies
    inside the content area (and so inside the border drawn by [Init]),
    with or without flip mode; it makes no other call. *)
Theorem SendPage_draws_inside (index : Z) (data : ptr) (mem : memory)
    (s : state) :
  display_initialized s = true → 0 <= index < kNumPages →
  ∃ rects, tft (SendPage index data mem s).2 = rects ++ tft s ∧
           length rects = 1024%nat ∧ Forall content_rect rects.
Proof.
  intros Hinit Hi.
  exists (page_rects (flip_mode s) index data mem).
  rewrite SendPage_accepted by (assumption || lia). cbn [snd tft].
  split; [reflexivity|].
  split; [apply length_page_rects | now apply page_rects_inside].
Qed.

Lemma pages_both_ways (frame : ptr) (mem : memory) (l : list Z)
    (s1 s2 : state) :
  Forall (λ page, page < kNumPages) l →
  display_initialized s2 = true →
  tft s1 = tft s2 → flip_mode s1 = flip_mode s2 →
  let whole :=
    fold_left
      (λ s page, draw_page page (ptr_add frame (page * kPageSize)) mem s)
      l s1 in
  let paged :=
    fold_left
      (λ s page, (SendPage page (ptr_add frame (page * kPageSize)) mem s).2)
      l s2 in
  tft whole = tft paged ∧
  page_buffer whole = page_buffer s1 ∧ page_dirty whole = page_dirty s1 ∧
  length (tft whole) = (1024 * length l + length (tft s1))%nat.
Proof.
  revert s1 s2. induction l as [|page l IH]; intros s1 s2 Hl Hinit Ht Hf.
  - simpl. auto.
  - apply Forall_cons in Hl as [Hpage Hl]. cbn zeta. simpl fold_left.
    rewrite draw_page_rects.
    rewrite SendPage_accepted by assumption. cbn [snd].
    match goal with
    | |- context [fold_left _ l ?a] =>
        match goal with
        | |- context [tft _ = tft (fold_left _ l ?b)] =>
            destruct (IH a b Hl eq_refl) as (H1 & H2 & H3 & H4)
        end
    end.
    + cbn [tft]. now rewrite Ht, Hf.
    + cbn [flip_mode]. exact Hf.
    + cbn [tft page_buffer page_dirty] in H2, H3, H4.
      split; [exact H1|]. split; [exact H2|]. split; [exact H3|].
      rewrite H4, length_app, length_page_rects. simpl length. lia.
Qed.

(** X6.  On an initialised display [UpdateDisplay] makes the very calls
    that [SendPage] makes for the pages 0 to 7 of the frame one after the
    other, 8 times 1024 of them; unlike [SendPage] it leaves [page_buffer] and the
    dirty flags alone. *)
Theorem UpdateDisplay_as_pages (frame : ptr) (mem : memory) (s : state) :
  display_initialized s = true →
  tft (UpdateDisplay frame mem s) = tft (send_frame frame mem s) ∧
  page_buffer (UpdateDisplay frame mem s) = page_buffer s ∧
  page_dirty (UpdateDisplay frame mem s) = page_dirty s ∧
  length (tft (UpdateDisplay frame mem s))
  = (8 * 1024 + length (tft s))%nat.
Proof.
  intros Hinit. unfold UpdateDisplay, send_frame. rewrite Hinit.
  cbn [negb].
  assert (Hpages : Forall (λ page, page < kNumPages) (seqZ 0 kNumPages))
    by (apply Forall_seqZ; intros page Hp; lia).
  destruct (pages_both_ways frame mem (seqZ 0 kNumPages) s s
              Hpages Hinit eq_refl eq_refl) as (H1 & H2 & H3 & H4).
  rewrite length_seqZ in H4.
  split; [exact H1|]. split; [exact H2|]. split; [exact H3|].
  rewrite H4. reflexivity.
Qed.

Lemma pages_stored (frame : ptr) (mem : memory) (l : list Z) (s : state) :
  Forall (λ page, page < kNumPages) l →
  display_initialized s = true →
  let paged :=
    fold_left
      (λ s page, (SendPage page (ptr_add frame (page * kPageSize)) mem s).2)
      l s in
  page_buffer paged
  = fold_left
      (λ b page, <[Z.to_nat page :=
                     load_bytes mem (ptr_add frame (page * kPageSize))
                       kPageSize]> b)
      l (page_buffer s) ∧
  page_dirty paged
  = fold_left (λ d page, <[Z.to_nat page := true]> d) l (page_dirty s).
Proof.
  revert s. induction l as [|page l IH]; intros s Hl Hinit.
  - simpl. auto.
  - apply Forall_cons in Hl as [Hpage Hl]. cbn zeta. simpl fold_left.
    rewrite SendPage_accepted by assumption. cbn [snd].
    match goal with
    | |- context [fold_left _ l ?a] => destruct (IH a Hl eq_refl) as [H1 H2]
    end.
    cbn [page_buffer page_dirty] in H1, H2. auto.
Qed.

(** X7.  Sending the eight pages of a frame leaves in [page_buffer] a copy
    of the frame, page by page, and every dirty flag set. *)
Theorem send_frame_copies (frame : ptr) (mem : memory) (s : state) :
  display_initialized s = true → well_sized s →
  page_buffer (send_frame frame mem s)
  = (λ page, load_bytes mem (ptr_add frame (page * kPageSize)) kPageSize)
    <$> seqZ 0 kNumPages ∧
  page_dirty (send_frame frame mem s) = replicate (Z.to_nat kNumPages) true.
Proof.
  intros Hinit [Hb Hd]. unfold send_frame.
  assert (Hpages : Forall (λ page, page < kNumPages) (seqZ 0 kNumPages))
    by (apply Forall_seqZ; intros page Hp; lia).
  destruct (pages_stored frame mem (seqZ 0 kNumPages) s Hpages Hinit)
    as [H1 H2].
  - rewrite H1, H2.
    destruct (page_buffer s) as [|b0 [|b1 [|b2 [|b3 [|b4 [|b5 [|b6 [|b7 [|]]]]]]]]];
      try discriminate Hb.
    destruct (page_dirty s) as [|d0 [|d1 [|d2 [|d3 [|d4 [|d5 [|d6 [|d7 [|]]]]]]]]];
      try discriminate Hd.
    split; reflexivity.
Qed.

(** X8.  Before [Init] nothing reaches the display: [Clear],
    [UpdateDisplay] and a whole [send_frame] leave the driver's statics as
    they are, and [SetFlipMode] only records the mode. *)
Theorem nothing_before_Init (frame : ptr) (mem : memory) (b : bool)
    (s : state) :
  display_initialized s = false →
  Clear s = s ∧ UpdateDisplay frame mem s = s ∧ send_frame frame mem s = s ∧
  tft (SetFlipMode b s) = tft s ∧ flip_mode (SetFlipMode b s) = b ∧
  display_initialized (SetFlipMode b s) = false.
Proof.
  intros Hinit.
  split; [unfold Clear; now rewrite Hinit|].
  split; [unfold UpdateDisplay; now rewrite Hinit|].
  split.
  - unfold send_frame. generalize (seqZ 0 kNumPages) as l.
    induction l as [|page l IH]; [reflexivity|]. simpl fold_left.
    unfold SendPage at 2. rewrite Hinit. exact IH.
  - unfold SetFlipMode. cbn [display_initialized]. rewrite Hinit. auto.
Qed.

(** X9.  The flip mode reaches the display in either order of the calls:
    set before [Init] it is kept by [Init] and decides the rotation [Init]
    selects; set after [Init] it selects the rotation at once.  Rotation 2
    goes with flip mode on, rotation 0 with flip mode off. *)
Theorem flip_mode_reaches_display (b : bool) (s : state) :
  let rotation := if b then 2 else 0 in
  (display_initialized s = false →
   last_rotation (tft (Init (SetFlipMode b s))) = Some rotation ∧
   flip_mode (Init (SetFlipMode b s)) = b) ∧
  (display_initialized s = true →
   last_rotation (tft (SetFlipMode b (Init s))) = Some rotation ∧
   last_rotation (tft (SetFlipMode b s)) = Some rotation ∧
   flip_mode (SetFlipMode b s) = b).
Proof.
  intros rotation. split; intros Hinit.
  - unfold SetFlipMode. cbn [display_initialized]. rewrite Hinit.
    split; reflexivity.
  - unfold SetFlipMode. cbn [display_initialized]. rewrite Hinit.
    repeat split; reflexivity.
Qed.

End ILI9341_DriverEffects.

Lemma SendPage_stores_page_witness :
  let s := display.device Scenario.booted in
  let mem := FrameBuffer.frames_ (display.frame_buffer Scenario.pool_full) in
  ILI9341_Driver.page_buffer
    (ILI9341_Driver.SendPage 3 (Ptr 1 384) mem s).2 !! 3%nat
  = Some (replicate 128 255).
Proof.
  intros s mem.
  destruct (ILI9341_DriverEffects.SendPage_stores_page 3 (Ptr 1 384) mem s)
    as (_ & Hpage & _).
  - reflexivity.
  - vm_compute. split; [discriminate | reflexivity].
  - vm_compute. split; reflexivity.
  - refine (eq_trans Hpage _). vm_compute. reflexivity.
Defined.

Lemma SendPage_draws_inside_witness :
  let s := display.device Scenario.booted in
  let mem := FrameBuffer.frames_ (display.frame_buffer Scenario.pool_full) in
  length (ILI9341_Driver.tft (ILI9341_Driver.SendPage 7 (Ptr 0 896) mem s).2)
  = (1024 + 4)%nat.
Proof.
  intros s mem.
  destruct (ILI9341_DriverEffects.SendPage_draws_inside 7 (Ptr 0 896) mem s)
    as (rects & Htft & Hlen & _).
  - reflexivity.
  - vm_compute. split; [discriminate | reflexivity].
  - rewrite Htft, length_app, Hlen. reflexivity.
Defined.

(** ** The display layer under any use *)

Module displaySafety.
Import display PagedDisplayDriverFacts displayFacts.

Section Facts.
Context `{Target} {Dev : Type} `{display_driver Dev}.
Local Existing Instance pool_params.
Hypothesis frames_fit : FrameBuffer.kNumFrames < 2 ^ size_bits.
Hypothesis pages_fit : 0 < kNumPages < 2 ^ size_bits.

Lemma size_bits_pos : 0 < size_bits.
Proof.
  apply (size_bits_positive FrameBuffer.kNumFrames);
    [simpl; lia | exact frames_fit].
Qed.

(** The wrap-around is invisible modulo the two slots. *)
Lemma wrap_mod_slots (z : Z) : wrap z mod 2 = z mod 2.
Proof.
  pose proof size_bits_pos as Hw.
  unfold wrap. apply Z.mod_mod_divide.
  exists (2 ^ (size_bits - 1)).
  replace size_bits with (Z.succ (size_bits - 1)) at 1 by lia.
  rewrite Z.pow_succ_r by lia. lia.
Qed.

Lemma probe_keeps (st : state Dev) : (probe st).2 = st.
Proof.
  unfold probe, FrameBuffer.writeable_frame.
  destruct (FrameBuffer.writeable (frame_buffer st)); [|reflexivity].
  destruct (FrameBuffer.readable_count_ (frame_buffer st)
            >=? FrameBuffer.kNumFrames); now destruct st.
Qed.

Lemma probe_pointer (st : state Dev) (p : ptr) :
  (probe st).1 = Some p →
  p = Ptr (FrameBuffer.write_frame_ (frame_buffer st)) 0 ∧
  FrameBuffer.readable_count_ (frame_buffer st) < 2.
Proof.
  unfold probe, FrameBuffer.writeable, FrameBuffer.writeable_frame.
  destruct (FrameBuffer.readable_count_ (frame_buffer st)
            <? FrameBuffer.kNumFrames) eqn:Hlt; [|discriminate].
  apply Z.ltb_lt in Hlt. simpl in Hlt.
  destruct (FrameBuffer.readable_count_ (frame_buffer st)
            >=? FrameBuffer.kNumFrames); [discriminate|].
  simpl. intros [= <-]. auto.
Qed.

Lemma acquire_result (fuel : nat) (wait : bool) (st st' : state Dev)
    (r : option ptr) :
  acquire fuel wait st = Some (r, st') →
  st' = st ∧
  ∀ p, r = Some p →
       p = Ptr (FrameBuffer.write_frame_ (frame_buffer st)) 0 ∧
       FrameBuffer.readable_count_ (frame_buffer st) < 2.
Proof.
  induction fuel as [|fuel IH]; simpl; [discriminate|].
  pose proof (probe_keeps st) as Hkeep.
  pose proof (probe_pointer st) as Hptr.
  destruct (probe st) as [frame st1]. simpl in Hkeep, Hptr. subst st1.
  destruct frame as [q|].
  - intros [= <- <-]. split; [reflexivity|]. intros p [= <-]. now apply Hptr.
  - destruct wait; [exact IH|].
    intros [= <- <-]. split; [reflexivity | discriminate].
Qed.

Lemma streaming_Init (st : state Dev) : streaming (Init st).
Proof.
  pose proof size_bits_pos as Hw.
  assert (0 < 2 ^ size_bits) by (apply Z.pow_pos_nonneg; lia).
  split; simpl; [lia | lia | reflexivity | discriminate].
Qed.

Lemma streaming_Update (st : state Dev) : streaming st → streaming (Update st).
Proof.
  intros [Hr Hc Hw Hf].
  destruct (PagedDisplayDriver.frame_ (driver st)) as [frame|] eqn:Hfr.
  - destruct (Hf frame eq_refl) as (Hslot & Hoff & Hpage & Hpos).
    destruct (Update_in_flight st frame Hfr) as (acc & s' & _ & ->).
    split; cbn [frame_buffer driver]; try assumption.
    destruct acc; [|rewrite Hfr; intros p [= <-]; auto].
    cbn [PagedDisplayDriver.frame_ PagedDisplayDriver.page_].
    rewrite (wrap_small (PagedDisplayDriver.page_ (driver st) + 1)) by lia.
    destruct (PagedDisplayDriver.page_ (driver st) + 1 >=? kNumPages)
      eqn:Hlast; [discriminate|].
    intros p [= <-]. simpl.
    rewrite Z.geb_leb in Hlast. apply Z.leb_gt in Hlast.
    repeat split; try lia.
  - rewrite (Update_no_frame st Hfr).
    split; cbn [frame_buffer driver]; try assumption.
    destruct (FrameBuffer.readable (frame_buffer st)) eqn:Hrd;
      [|rewrite Hfr; discriminate].
    unfold FrameBuffer.readable in Hrd. rewrite Z.gtb_ltb in Hrd.
    apply Z.ltb_lt in Hrd.
    unfold FrameBuffer.readable_frame.
    destruct (FrameBuffer.readable_count_ (frame_buffer st) =? 0) eqn:Hz;
      [apply Z.eqb_eq in Hz; lia|].
    simpl. intros p [= <-]. simpl. repeat split; lia.
Qed.

Lemma streaming_Flush (st : state Dev) : streaming st → streaming (Flush st).
Proof.
  intros [Hr Hc Hw Hf]. unfold Flush, PagedDisplayDriver.Flush.
  destruct (PagedDisplayDriver.frame_ (driver st)) as [frame|] eqn:Hfr.
  - split; cbn [frame_buffer driver]; try assumption.
    now rewrite Hfr.
  - pose proof size_bits_pos as Hpos.
    split; cbn [frame_buffer driver]; simpl.
    + apply Z.mod_pos_bound. lia.
    + now apply wrap_bounds.
    + assert (Hmod : ∀ a b, (wrap a mod 2 + wrap b) mod 2 = (a + b) mod 2).
      { intros a b.
        rewrite Zplus_mod_idemp_l, (Zplus_mod (wrap a)), !wrap_mod_slots.
        now rewrite <- Zplus_mod. }
      rewrite Hmod, Hw. f_equal. lia.
    + rewrite Hfr. discriminate.
Qed.

Lemma streaming_frame (fuel : nat) (wait : bool) (render : list Z → list Z)
    (st st' : state Dev) (o : outcome) :
  streaming st → graphics_frame fuel wait render st = Some (o, st') →
  streaming st' ∧ driver st' = driver st ∧
  ∀ p, PagedDisplayDriver.frame_ (driver st) = Some p →
       slot_bytes (FrameBuffer.frames_ (frame_buffer st')) (slot p)
       = slot_bytes (FrameBuffer.frames_ (frame_buffer st)) (slot p).
Proof.
  intros Hst. unfold graphics_frame.
  destruct (acquire fuel wait st) as [[r st1]|] eqn:Hacq; [|discriminate].
  apply acquire_result in Hacq as [-> Hptr].
  destruct r as [frame|]; intros [= <- <-]; [|auto].
  destruct (Hptr frame eq_refl) as [-> Hroom].
  destruct Hst as [Hr Hc Hw Hf].
  assert (Hcount : wrap (FrameBuffer.readable_count_ (frame_buffer st) + 1)
                   = FrameBuffer.readable_count_ (frame_buffer st) + 1).
  { apply wrap_small. simpl in frames_fit. lia. }
  split; [|split; [reflexivity|]].
  - split; cbn [draw_and_commit frame_buffer driver]; simpl.
    + exact Hr.
    + rewrite Hcount. simpl in frames_fit. lia.
    + rewrite Hcount, wrap_mod_slots, Hw, Zplus_mod_idemp_l. f_equal. lia.
    + intros p Hp. destruct (Hf p Hp) as (? & ? & ? & ?).
      rewrite Hcount. repeat split; try assumption; lia.
  - intros p Hp. destruct (Hf p Hp) as (Hslot & _ & _ & Hpos).
    cbn [draw_and_commit frame_buffer]. simpl.
    unfold slot_bytes. rewrite list_lookup_insert_ne; [reflexivity|].
    assert (FrameBuffer.readable_count_ (frame_buffer st) = 1) as Hone by lia.
    rewrite Hw, Hone, Hslot.
    pose proof (Z.mod_pos_bound
                  (FrameBuffer.read_frame_ (frame_buffer st) + 1) 2).
    assert ((FrameBuffer.read_frame_ (frame_buffer st) + 1) mod 2
            ≠ FrameBuffer.read_frame_ (frame_buffer st)).
    { assert (FrameBuffer.read_frame_ (frame_buffer st) = 0 ∨
              FrameBuffer.read_frame_ (frame_buffer st) = 1) as [-> | ->]
        by lia; discriminate. }
    lia.
Qed.

Lemma streaming_exec (fuel : nat) (c : command) (st st' : state Dev) :
  streaming st → exec fuel c st = Some st' → streaming st'.
Proof.
  intros Hst. destruct c; simpl.
  - intros [= <-]. now apply streaming_Update.
  - intros [= <-]. now apply streaming_Flush.
  - destruct (graphics_frame fuel wait render st) as [[o st1]|] eqn:Hfr;
      [|discriminate].
    intros [= <-]. now apply (streaming_frame fuel wait render st st1 o).
Qed.

Lemma streaming_run (fuel : nat) (cmds : list command) (st st' : state Dev) :
  streaming st → run fuel cmds st = Some st' → streaming st'.
Proof.
  revert st. induction cmds as [|c cmds IH]; intros st Hst; simpl.
  - now intros [= <-].
  - destruct (exec fuel c st) as [st1|] eqn:Hex; [|discriminate].
    eauto using streaming_exec.
Qed.

Lemma load_same_slot (mem mem' : memory) (p : ptr) (i : Z) :
  slot_bytes mem' (slot p) = slot_bytes mem (slot p) →
  load mem' p i = load mem p i.
Proof.
  unfold slot_bytes, load. intros Hsame.
  destruct (mem' !! Z.to_nat (slot p)) as [f'|],
           (mem !! Z.to_nat (slot p)) as [f|];
    simpl in *; subst; reflexivity.
Qed.

(** X10.  No tearing.  However [display::Update], [display::Flush] and
    drawing sessions follow each other after [display::Init] (the
    underflow of the count included), while a frame is in flight the pool
    never hands the producer a pointer into the slot being sent, and a
    whole drawing session leaves [frame_] and the bytes [SendPage] is
    about to read exactly as they were. *)
Theorem tearing_free (fuel : nat) (cmds : list command) (st0 st : state Dev)
    (p : ptr) :
  run fuel cmds (Init st0) = Some st →
  PagedDisplayDriver.frame_ (driver st) = Some p →
  (∀ q, (FrameBuffer.writeable_frame (frame_buffer st)).1 = Some q →
        slot q ≠ slot p) ∧
  (∀ fuel' wait render o st',
     graphics_frame fuel' wait render st = Some (o, st') →
     PagedDisplayDriver.frame_ (driver st') = Some p ∧
     load_bytes (FrameBuffer.frames_ (frame_buffer st')) p kPageSize
     = load_bytes (FrameBuffer.frames_ (frame_buffer st)) p kPageSize).
Proof.
  intros Hrun Hp.
  pose proof (streaming_run fuel cmds _ st (streaming_Init st0) Hrun) as Hst.
  split.
  - intros q Hq.
    destruct Hst as [Hr Hc Hw Hf].
    destruct (Hf p Hp) as (Hslot & _ & _ & Hpos).
    unfold FrameBuffer.writeable_frame in Hq.
    destruct (FrameBuffer.readable_count_ (frame_buffer st)
              >=? FrameBuffer.kNumFrames) eqn:Hfull; [discriminate|].
    rewrite Z.geb_leb in Hfull. apply Z.leb_gt in Hfull. simpl in Hfull.
    simpl in Hq. injection Hq as <-. simpl. rewrite Hslot, Hw.
    replace (FrameBuffer.readable_count_ (frame_buffer st)) with 1 by lia.
    assert (FrameBuffer.read_frame_ (frame_buffer st) = 0 ∨
            FrameBuffer.read_frame_ (frame_buffer st) = 1) as [-> | ->]
      by lia; discriminate.
  - intros fuel' wait render o st' Hframe.
    destruct (streaming_frame fuel' wait render st st' o Hst Hframe)
      as (_ & Hd & Hbytes).
    split; [now rewrite Hd|].
    unfold load_bytes. apply list_fmap_ext. intros i k _.
    apply load_same_slot. now apply Hbytes.
Qed.

(** X11.  The pointer the paged driver sends from stays inside its frame:
    after any commands following [display::Init], [frame_] points into one
    of the two slots at offset [page_ * kPageSize], with [page_] below
    [kNumPages], so the [kPageSize] bytes [SendPage] reads end at or before
    byte [kNumPages * kPageSize] of the slot. *)
Theorem streaming_pointer_in_bounds (fuel : nat) (cmds : list command)
    (st0 st : state Dev) (p : ptr) :
  0 <= kPageSize →
  run fuel cmds (Init st0) = Some st →
  PagedDisplayDriver.frame_ (driver st) = Some p →
  0 <= slot p < FrameBuffer.kNumFrames ∧
  offset p = PagedDisplayDriver.page_ (driver st) * kPageSize ∧
  0 <= offset p ∧ offset p + kPageSize <= kNumPages * kPageSize.
Proof.
  intros Hsize Hrun Hp.
  pose proof (streaming_run fuel cmds _ st (streaming_Init st0) Hrun)
    as [Hr Hc Hw Hf].
  destruct (Hf p Hp) as (Hslot & Hoff & Hpage & _).
  split; [simpl; lia|]. split; [exact Hoff|]. rewrite Hoff. nia.
Qed.


End Facts.

Section Streaming.
Context `{Target} {Dev : Type} `{display_driver Dev}.
Local Existing Instance pool_params.
Hypothesis pages_fit : 0 < kNumPages < 2 ^ size_bits.
Hypothesis index_fits : kNumPages <= 2 ^ fast8_bits.

(** A condition on the sink under which it accepts every page. *)
Variable ready : Dev → Prop.
Hypothesis ready_accepts : ∀ s index data mem,
  ready s → 0 <= index < kNumPages →
  ∃ s', SendPage index data mem s = (true, s') ∧ ready s'.

Lemma sent_pages_app (a b : list call) :
  sent_pages (a ++ b) = sent_pages a ++ sent_pages b.
Proof.
  induction a as [|c a IH]; [reflexivity|].
  destruct c; simpl; now rewrite IH.
Qed.

Lemma send_pages_app (mem : memory) (frame : ptr) (a b : list Z)
    (s : Dev) :
  send_pages mem frame (a ++ b) s
  = send_pages mem frame b (send_pages mem frame a s).
Proof. unfold send_pages. apply fold_left_app. Qed.

Lemma stream_rest (n : nat) (st : state Dev) (frame : ptr) (k : Z) :
  let mem := FrameBuffer.frames_ (frame_buffer st) in
  0 <= k → k + Z.of_nat (S n) = kNumPages →
  PagedDisplayDriver.frame_ (driver st)
  = Some (ptr_add frame (k * kPageSize)) →
  PagedDisplayDriver.page_ (driver st) = k →
  ready (device st) →
  let st' := Updates (S n) st in
  PagedDisplayDriver.frame_ (driver st') = None ∧
  PagedDisplayDriver.page_ (driver st') = kNumPages ∧
  frame_buffer st' = frame_buffer st ∧ ready (device st') ∧
  device st'
  = send_pages mem frame (seqZ k (Z.of_nat (S n))) (device st) ∧
  ∃ new, trace st' = new ++ trace st ∧
         sent_pages new
         = rev ((λ i, (i, load_bytes mem (ptr_add frame (i * kPageSize))
                            kPageSize)) <$> seqZ k (Z.of_nat (S n))).
Proof.
  revert st k. induction n as [|n IH]; intros st k mem Hk Hsum Hf Hp Hready.
  - destruct (Update_in_flight st _ Hf) as (acc & s' & Hsend & Hupd).
    destruct (ready_accepts (device st)
                (to_uint_fast8 (PagedDisplayDriver.page_ (driver st)))
                (ptr_add frame (k * kPageSize)) mem Hready)
      as (s1 & Hacc & Hready').
    { rewrite Hp. unfold to_uint_fast8. rewrite Z.mod_small; lia. }
    fold mem in Hsend. rewrite Hacc in Hsend. injection Hsend as <- <-.
    cbn zeta. simpl Updates. rewrite Hupd. cbn [driver frame_buffer device
      trace PagedDisplayDriver.frame_ PagedDisplayDriver.page_].
    rewrite Hp in Hacc |- *. rewrite (wrap_small (k + 1)) by lia.
    replace (k + 1 >=? kNumPages) with true
      by (symmetry; apply Z.geb_le; lia).
    unfold to_uint_fast8 in Hacc |- *.
    rewrite Z.mod_small in Hacc |- * by lia.
    rewrite (seqZ_cons _ (Z.of_nat 1)) by lia.
    rewrite seqZ_nil by lia.
    split; [reflexivity|]. split; [lia|]. split; [reflexivity|].
    split; [exact Hready'|].
    split; [unfold send_pages; simpl; now rewrite Hacc|].
    eexists. split; [reflexivity|]. reflexivity.
  - destruct (Update_in_flight st _ Hf) as (acc & s' & Hsend & Hupd).
    destruct (ready_accepts (device st)
                (to_uint_fast8 (PagedDisplayDriver.page_ (driver st)))
                (ptr_add frame (k * kPageSize)) mem Hready)
      as (s1 & Hacc & Hready').
    { rewrite Hp. unfold to_uint_fast8. rewrite Z.mod_small; lia. }
    fold mem in Hsend. rewrite Hacc in Hsend. injection Hsend as <- <-.
    rewrite Hp in Hupd, Hacc. rewrite (wrap_small (k + 1)) in Hupd by lia.
    replace (k + 1 >=? kNumPages) with false in Hupd
      by (symmetry; rewrite Z.geb_leb; apply Z.leb_gt; lia).
    unfold to_uint_fast8 in Hacc. rewrite Z.mod_small in Hacc by lia.
    cbn zeta. change (Updates (S (S n)) st) with (Updates (S n) (Update st)).
    rewrite Hupd.
    match goal with |- context [Updates (S n) ?st1] =>
      destruct (IH st1 (k + 1))
        as (H1 & H2 & H3 & H4 & H5 & new & Htr & Hsent)
    end.
    + lia.
    + lia.
    + cbn [driver PagedDisplayDriver.frame_]. f_equal.
      unfold ptr_add. simpl. f_equal. lia.
    + reflexivity.
    + exact Hready'.
    + cbn [frame_buffer trace device] in H3, H5, Htr, Hsent.
      split; [exact H1|]. split; [exact H2|]. split; [exact H3|].
      split; [exact H4|]. split.
      * rewrite H5. rewrite (seqZ_cons k (Z.of_nat (S (S n)))) by lia.
        change (k :: seqZ (Z.succ k) (Z.pred (Z.of_nat (S (S n)))))
          with ([k] ++ seqZ (Z.succ k) (Z.pred (Z.of_nat (S (S n))))).
        rewrite send_pages_app. unfold send_pages at 3. simpl fold_left.
        rewrite Hacc. cbn [snd].
        replace (Z.succ k) with (k + 1) by lia.
        replace (Z.pred (Z.of_nat (S (S n)))) with (Z.of_nat (S n)) by lia.
        reflexivity.
      * exists (new ++ attempt (to_uint_fast8 k)
                          (ptr_add frame (k * kPageSize)) mem true).
        split; [now rewrite Htr, <- app_assoc|].
        rewrite sent_pages_app, Hsent. unfold attempt. simpl sent_pages.
        unfold to_uint_fast8. rewrite Z.mod_small by lia.
        rewrite (seqZ_cons k) by lia. rewrite fmap_cons. simpl rev.
        repeat f_equal; lia.
Qed.

(** X12.  A whole frame goes out in order.  With the driver idle, a frame
    published and a sink that accepts, [1 + kNumPages] calls of
    [display::Update] begin the frame at the read index and send its pages
    0, 1, ..., [kNumPages - 1], each exactly once and each from its own
    offset [index * kPageSize]: the sink ends up as these [kNumPages]
    calls of [SendPage], made in this order and no others, leave it, and
    the trace records the same pages.  Afterwards the driver is idle
    again and the pool is untouched (the release is left to
    [display::Flush]). *)
Theorem frame_streamed_in_order (st : state Dev) :
  PagedDisplayDriver.frame_ (driver st) = None →
  FrameBuffer.readable (frame_buffer st) = true →
  ready (device st) →
  let st' := Updates (S (Z.to_nat kNumPages)) st in
  let frame := Ptr (FrameBuffer.read_frame_ (frame_buffer st)) 0 in
  let mem := FrameBuffer.frames_ (frame_buffer st) in
  device st' = send_pages mem frame (seqZ 0 kNumPages) (device st) ∧
  ready (device st') ∧
  sent_pages (since (trace st) st') = frame_pages mem frame ∧
  PagedDisplayDriver.frame_ (driver st') = None ∧
  frame_buffer st' = frame_buffer st.
Proof.
  intros Hidle Hrd Hready st' frame mem.
  assert (Hbegin : Update st
          = {| frame_buffer := frame_buffer st;
               driver := {| PagedDisplayDriver.frame_ := Some frame;
                            PagedDisplayDriver.page_ := 0 |};
               device := device st;
               trace := CallUpdate :: trace st |}).
  { rewrite (Update_no_frame st Hidle), Hrd.
    unfold FrameBuffer.readable in Hrd. rewrite Z.gtb_ltb in Hrd.
    apply Z.ltb_lt in Hrd. unfold FrameBuffer.readable_frame.
    destruct (FrameBuffer.readable_count_ (frame_buffer st) =? 0) eqn:Hz;
      [apply Z.eqb_eq in Hz; lia | reflexivity]. }
  destruct (Z.to_nat kNumPages) as [|n] eqn:Hn; [lia|].
  subst st'. change (Updates (S (S n)) st) with (Updates (S n) (Update st)).
  rewrite Hbegin.
  match goal with |- context [Updates (S n) ?st1] =>
    destruct (stream_rest n st1 frame 0)
      as (H1 & _ & H3 & H4 & H5 & new & Htr & Hsent)
  end; try reflexivity; try lia; try exact Hready.
  cbn [frame_buffer trace device] in H3, H5, Htr, Hsent.
  assert (Hpages : Z.of_nat (S n) = kNumPages)
    by (rewrite <- Hn, Z2Nat.id by lia; reflexivity).
  rewrite Hpages in H5, Hsent.
  split; [exact H5|]. split; [exact H4|].
  split; [|split; [exact H1 | exact H3]].
  erewrite (since_new _ (new ++ [CallUpdate]))
    by (rewrite Htr, <- app_assoc; reflexivity).
  rewrite sent_pages_app, Hsent. simpl sent_pages. rewrite app_nil_r.
  reflexivity.
Qed.

End Streaming.
End displaySafety.

(** ** Main.cpp: the animation and the redraw loop *)

Module MainFacts.
Import display Main PagedDisplayDriverFacts displayFacts displaySafety.


Section Facts.
Context `{Target} {Dev : Type} `{display_driver Dev}.
Local Existing Instance pool_params.








End Facts.

Section Pool.
Context `{Target} {Dev : Type} `{display_driver Dev}.
Local Existing Instance pool_params.
Hypothesis frames_fit : FrameBuffer.kNumFrames < 2 ^ size_bits.
Hypothesis pages_fit : 0 < kNumPages < 2 ^ size_bits.

Lemma Update_keeps_pool (d : display.state Dev) :
  frame_buffer (Update d) = frame_buffer d.
Proof.
  destruct (PagedDisplayDriver.frame_ (driver d)) as [frame|] eqn:Hf.
  - now destruct (Update_in_flight d frame Hf) as (acc & s' & _ & ->).
  - now rewrite (Update_no_frame d Hf).
Qed.

Lemma blocking_frame (fuel : nat) (render : list Z → list Z)
    (d d' : display.state Dev) (o : outcome) :
  graphics_frame fuel true render d = Some (o, d') →
  FrameBuffer.readable_count_ (frame_buffer d) < 2 ∧
  d' = draw_and_commit render
         (Ptr (FrameBuffer.write_frame_ (frame_buffer d)) 0) d.
Proof.
  unfold graphics_frame.
  destruct (acquire fuel true d) as [[r d1]|] eqn:Hacq; [|discriminate].
  assert (Hsome : r ≠ None).
  { clear -Hacq. revert Hacq. induction fuel as [|fuel IH]; simpl;
      [discriminate|].
    pose proof (probe_keeps d) as Hkeep.
    destruct (probe d) as [frame d2]. simpl in Hkeep. subst d2.
    destruct frame; [intros [= <- <-]; discriminate | exact IH]. }
  apply acquire_result in Hacq as [-> Hptr].
  destruct r as [frame|]; [|contradiction].
  destruct (Hptr frame eq_refl) as [-> Hroom].
  intros [= <- <-]. auto.
Qed.

Lemma full_pool_waits (fuel : nat) (render : list Z → list Z)
    (d : display.state Dev) :
  FrameBuffer.readable_count_ (frame_buffer d) = 2 →
  graphics_frame fuel true render d = None.
Proof.
  intros Hfull. unfold graphics_frame.
  replace (acquire fuel true d) with (@None (option ptr * display.state Dev));
    [reflexivity|].
  symmetry. induction fuel as [|fuel IH]; simpl; [reflexivity|].
  now rewrite (probe_full d Hfull).
Qed.

Lemma tidy_Update (d : display.state Dev) : tidy d → tidy (Update d).
Proof.
  intros (Hs & Hc & Hl). unfold tidy. rewrite Update_keeps_pool.
  split; [now apply streaming_Update | auto].
Qed.

Lemma tidy_committed (render : list Z → list Z) (d : display.state Dev) :
  tidy d → FrameBuffer.readable_count_ (frame_buffer d) < 2 →
  let d' := draw_and_commit render
              (Ptr (FrameBuffer.write_frame_ (frame_buffer d)) 0) d in
  FrameBuffer.readable_count_ (frame_buffer d')
  = FrameBuffer.readable_count_ (frame_buffer d) + 1 ∧
  length (FrameBuffer.frames_ (frame_buffer d')) = 2%nat.
Proof.
  intros (Hs & Hc & Hl) Hroom d'. subst d'. simpl.
  pose proof (str_count _ Hs) as Hc0.
  split; [apply wrap_small; simpl in frames_fit; lia|].
  now rewrite length_insert.
Qed.

Lemma tidy_Flush (d : display.state Dev) :
  tidy d → 0 < FrameBuffer.readable_count_ (frame_buffer d) →
  tidy (Flush d).
Proof.
  intros (Hs & Hc & Hl) Hpos.
  split; [now apply streaming_Flush|].
  unfold Flush, PagedDisplayDriver.Flush.
  destruct (PagedDisplayDriver.frame_ (driver d)); cbn [frame_buffer];
    [auto|].
  simpl. split; [|exact Hl].
  rewrite wrap_small; [lia|]. simpl in frames_fit. lia.
Qed.

Lemma tidy_loop (fuel : nat) (draw : Z → Z → Z → list Z → list Z)
    (now : Z) (st st' : Main.state Dev) :
  tidy (screen st) → loop fuel draw now st = Some st' → tidy (screen st').
Proof.
  intros Htidy. unfold loop.
  destruct (uint32 (now - last_redraw st) >=? REDRAW_INTERVAL_MS);
    [|intros [= <-]; now apply tidy_Update].
  cbn [animate screen ball_x ball_y frame_count].
  destruct (graphics_frame _ _ _ _) as [[o d1]|] eqn:Hframe; [|discriminate].
  intros [= <-]. cbn [with_screen screen]. apply tidy_Update.
  pose proof Htidy as (Hs & Hc & Hl).
  destruct (streaming_frame frames_fit _ _ _ _ _ _ Hs Hframe)
    as (Hs1 & _ & _).
  apply blocking_frame in Hframe as [Hroom ->].
  pose proof (str_count _ Hs) as Hc0.
  match goal with |- context [draw_and_commit ?r _ _] =>
    destruct (tidy_committed r (screen st) Htidy Hroom) as [Hc1 Hl1]
  end.
  apply tidy_Flush.
  - apply tidy_Update. split; [exact Hs1|]. split; [lia | exact Hl1].
  - rewrite Update_keeps_pool. lia.
Qed.

(** X14.  [loop()] never releases a slot it does not hold: however often
    and at whatever times it runs after [setup()], the pool keeps its ring
    invariant, and [readable_count_] stays between 0 and 2 without ever
    wrapping. *)
Theorem loop_never_underflows (fuel : nat)
    (draw : Z → Z → Z → list Z → list Z) (nows : list Z)
    (d : display.state Dev) (st : Main.state Dev) :
  loops fuel draw nows (setup (statics d)) = Some st →
  FrameBuffer.ring (frame_buffer (screen st)).
Proof.
  intros Hrun.
  assert (Htidy : tidy (screen st)).
  { revert Hrun.
    assert (Hstart : tidy (screen (setup (statics d)))).
    { split; [apply streaming_Init; assumption|]. simpl.
      split; [lia | reflexivity]. }
    revert Hstart. generalize (setup (statics d)) as st0.
    induction nows as [|now nows IH]; intros st0 Hst0; simpl.
    - now intros [= <-].
    - destruct (loop fuel draw now st0) as [st1|] eqn:Hloop; [|discriminate].
      apply IH. eauto using tidy_loop. }
  destruct Htidy as ([Hr Hc Hw _] & Hle & Hlen).
  split; simpl; try assumption; lia.
Qed.

(** X15.  A full pool is final.  Once [loop()] returns with both frames
    published, nothing [loop()] does by itself frees one: each later call
    that is not yet due for a redraw leaves the pool full, and the first
    call that is due never returns.  So a run that does return has drawn
    no further frame. *)
Theorem full_pool_is_final (fuel : nat)
    (draw : Z → Z → Z → list Z → list Z) (nows : list Z)
    (st st' : Main.state Dev) :
  FrameBuffer.readable_count_ (frame_buffer (screen st)) = 2 →
  loops fuel draw nows st = Some st' →
  FrameBuffer.readable_count_ (frame_buffer (screen st')) = 2 ∧
  frame_count st' = frame_count st ∧
  last_redraw st' = last_redraw st ∧
  Forall (λ now, uint32 (now - last_redraw st) < REDRAW_INTERVAL_MS) nows.
Proof.
  clear frames_fit pages_fit.
  revert st. induction nows as [|now nows IH]; intros st Hfull; simpl.
  - intros [= <-]. auto.
  - unfold loop.
    destruct (uint32 (now - last_redraw st) >=? REDRAW_INTERVAL_MS) eqn:Hdue.
    + cbn [animate screen ball_x ball_y frame_count].
      now rewrite full_pool_waits.
    + rewrite Z.geb_leb in Hdue. apply Z.leb_gt in Hdue.
      intros Hrest. apply IH in Hrest.
      * cbn [with_screen screen frame_count last_redraw] in Hrest.
        destruct Hrest as (H1 & H2 & H3 & H4). auto.
      * cbn [with_screen screen]. now rewrite Update_keeps_pool.
Qed.

Lemma probe_room (d : display.state Dev) :
  FrameBuffer.readable_count_ (frame_buffer d) < 2 →
  probe d = (Some (Ptr (FrameBuffer.write_frame_ (frame_buffer d)) 0), d).
Proof.
  intros Hroom. unfold probe, FrameBuffer.writeable,
    FrameBuffer.writeable_frame.
  replace (FrameBuffer.readable_count_ (frame_buffer d)
           <? FrameBuffer.kNumFrames) with true
    by (symmetry; apply Z.ltb_lt; simpl; lia).
  replace (FrameBuffer.readable_count_ (frame_buffer d)
           >=? FrameBuffer.kNumFrames) with false
    by (symmetry; rewrite Z.geb_leb; apply Z.leb_gt; simpl; lia).
  now destruct d.
Qed.

Lemma frame_drawn (fuel : nat) (wait : bool) (render : list Z → list Z)
    (d : display.state Dev) :
  FrameBuffer.readable_count_ (frame_buffer d) < 2 →
  graphics_frame (S fuel) wait render d
  = Some (Drawn,
          draw_and_commit render
            (Ptr (FrameBuffer.write_frame_ (frame_buffer d)) 0) d).
Proof.
  intros Hroom. unfold graphics_frame. simpl acquire.
  now rewrite (probe_room d Hroom).
Qed.

Lemma Update_begins (d : display.state Dev) :
  PagedDisplayDriver.frame_ (driver d) = None →
  0 < FrameBuffer.readable_count_ (frame_buffer d) →
  (∃ p, PagedDisplayDriver.frame_ (driver (Update d)) = Some p) ∧
  PagedDisplayDriver.page_ (driver (Update d)) = 0.
Proof.
  intros Hidle Hpos. rewrite (Update_no_frame d Hidle).
  unfold FrameBuffer.readable, FrameBuffer.readable_frame.
  replace (FrameBuffer.readable_count_ (frame_buffer d) >? 0) with true
    by (symmetry; rewrite Z.gtb_ltb; apply Z.ltb_lt; lia).
  replace (FrameBuffer.readable_count_ (frame_buffer d) =? 0) with false
    by (symmetry; apply Z.eqb_neq; lia).
  simpl. eauto.
Qed.

Lemma Update_advances (d : display.state Dev) (j : Z) :
  (∃ p, PagedDisplayDriver.frame_ (driver d) = Some p) →
  0 <= PagedDisplayDriver.page_ (driver d) <= j → j + 1 < kNumPages →
  (∃ p, PagedDisplayDriver.frame_ (driver (Update d)) = Some p) ∧
  0 <= PagedDisplayDriver.page_ (driver (Update d)) <= j + 1.
Proof.
  intros [p Hp] Hpage Hj.
  destruct (Update_in_flight d p Hp) as (acc & s' & _ & ->).
  cbn [driver]. destruct acc; [|split; [eauto | lia]].
  cbn [PagedDisplayDriver.frame_ PagedDisplayDriver.page_].
  rewrite (wrap_small (PagedDisplayDriver.page_ (driver d) + 1)) by lia.
  replace (PagedDisplayDriver.page_ (driver d) + 1 >=? kNumPages) with false
    by (symmetry; rewrite Z.geb_leb; apply Z.leb_gt; lia).
  split; [eauto | lia].
Qed.

Lemma Flush_in_flight (d : display.state Dev) :
  (∃ p, PagedDisplayDriver.frame_ (driver d) = Some p) →
  frame_buffer (Flush d) = frame_buffer d ∧ driver (Flush d) = driver d.
Proof.
  intros [p Hp]. unfold Flush, PagedDisplayDriver.Flush. now rewrite Hp.
Qed.

(** X16.  Two redraws in a row after [setup()] fill the pool.  If the
    first two calls of [loop()] are both due for a redraw (as they are
    when a call takes longer than the redraw interval) and a frame has at
    least three pages, both frames are published and none is released,
    whatever the sink does; the next call that is due for a redraw then
    waits for ever. *)
Theorem two_redraws_fill_pool (fuel : nat)
    (draw : Z → Z → Z → list Z → list Z) (now1 now2 : Z)
    (d : display.state Dev) :
  3 <= kNumPages →
  REDRAW_INTERVAL_MS <= uint32 (now1 - 0) →
  REDRAW_INTERVAL_MS <= uint32 (now2 - now1) →
  ∃ st, loops (S fuel) draw [now1; now2] (setup (statics d)) = Some st ∧
        FrameBuffer.readable_count_ (frame_buffer (screen st)) = 2 ∧
        frame_count st = 2 ∧
        ∀ fuel' now3, REDRAW_INTERVAL_MS <= uint32 (now3 - now2) →
                      loop fuel' draw now3 st = None.
Proof.
  clear frames_fit.
  intros Hpages Hdue1 Hdue2.
  apply Z.geb_le in Hdue1, Hdue2.
  assert (Hsmall : ∀ c, 0 <= c < 2 → wrap (c + 1) = c + 1).
  { intros c Hc. apply wrap_small. lia. }
  (* the first redraw *)
  set (st0 := setup (statics d)).
  set (a1 := animate now1 st0).
  set (c1 := draw_and_commit
               (draw (ball_x a1) (ball_y a1) (frame_count a1))
               (Ptr (FrameBuffer.write_frame_ (frame_buffer (screen a1))) 0)
               (screen a1)).
  assert (Hc1 : FrameBuffer.readable_count_ (frame_buffer c1) = 1)
    by (subst c1 a1 st0; simpl; now rewrite (Hsmall 0)).
  assert (Hf1 : PagedDisplayDriver.frame_ (driver c1) = None) by reflexivity.
  destruct (Update_begins c1 Hf1) as [Hb1 Hp1]; [lia|].
  pose proof (Update_keeps_pool c1) as Hk1.
  destruct (Flush_in_flight (Update c1) Hb1) as [Hk2 Hd2].
  set (e1 := Flush (Update c1)) in *.
  destruct (Update_advances e1 0) as [Hb3 Hp3];
    [now rewrite Hd2 | rewrite Hd2; lia | lia |].
  pose proof (Update_keeps_pool e1) as Hk3.
  set (s1 := with_screen a1 (Update e1)).
  assert (Hloop1 : loop (S fuel) draw now1 st0 = Some s1).
  { unfold loop. change (last_redraw st0) with 0. rewrite Hdue1.
    fold a1. rewrite frame_drawn by (subst a1 st0; simpl; lia).
    reflexivity. }
  assert (Hcount1 : FrameBuffer.readable_count_ (frame_buffer (screen s1)) = 1)
    by (subst s1; cbn [with_screen screen]; now rewrite Hk3, Hk2, Hk1).
  (* the second redraw *)
  set (a2 := animate now2 s1).
  set (c2 := draw_and_commit
               (draw (ball_x a2) (ball_y a2) (frame_count a2))
               (Ptr (FrameBuffer.write_frame_ (frame_buffer (screen a2))) 0)
               (screen a2)).
  assert (Hc2 : FrameBuffer.readable_count_ (frame_buffer c2) = 2).
  { change (FrameBuffer.readable_count_ (frame_buffer c2))
      with (wrap (FrameBuffer.readable_count_ (frame_buffer (screen s1)) + 1)).
    rewrite Hcount1. now apply Hsmall. }
  assert (Hd : driver c2 = driver (Update e1)) by reflexivity.
  destruct (Update_advances c2 1) as [Hb4 Hp4];
    [now rewrite Hd | rewrite Hd; lia | lia |].
  pose proof (Update_keeps_pool c2) as Hk4.
  destruct (Flush_in_flight (Update c2) Hb4) as [Hk5 _].
  pose proof (Update_keeps_pool (Flush (Update c2))) as Hk6.
  set (s2 := with_screen a2 (Update (Flush (Update c2)))).
  assert (Hloop2 : loop (S fuel) draw now2 s1 = Some s2).
  { unfold loop. change (last_redraw s1) with now1. rewrite Hdue2.
    fold a2. rewrite frame_drawn
      by (change (screen a2) with (screen s1); rewrite Hcount1; lia).
    reflexivity. }
  assert (Hfull : FrameBuffer.readable_count_ (frame_buffer (screen s2)) = 2)
    by (subst s2; cbn [with_screen screen]; now rewrite Hk6, Hk5, Hk4).
  exists s2. split; [simpl; now rewrite Hloop1, Hloop2|].
  split; [exact Hfull|]. split; [reflexivity|].
  intros fuel' now3 Hdue3. apply Z.geb_le in Hdue3.
  unfold loop. change (last_redraw s2) with now2. rewrite Hdue3.
  cbn [animate screen ball_x ball_y frame_count].
  now rewrite full_pool_waits.
Qed.

End Pool.
End MainFacts.


(** ** The further properties at work on the ILI9341 display *)

Lemma UpdateDisplay_as_pages_witness :
  let s := display.device Scenario.booted in
  let mem := FrameBuffer.frames_ (display.frame_buffer Scenario.pool_full) in
  length (ILI9341_Driver.tft (ILI9341_Driver.UpdateDisplay (Ptr 1 0) mem s))
  = (8 * 1024 + 4)%nat.
Proof.
  intros s mem.
  destruct (ILI9341_DriverEffects.UpdateDisplay_as_pages (Ptr 1 0) mem s)
    as (_ & _ & _ & Hlen).
  - reflexivity.
  - rewrite Hlen. reflexivity.
Defined.

Lemma send_frame_copies_witness :
  let s := display.device Scenario.booted in
  let mem := FrameBuffer.frames_ (display.frame_buffer Scenario.pool_full) in
  ILI9341_Driver.page_buffer (ILI9341_Driver.send_frame (Ptr 1 0) mem s)
  = replicate 8 (replicate 128 255).
Proof.
  intros s mem.
  destruct (ILI9341_DriverEffects.send_frame_copies (Ptr 1 0) mem s)
    as [Hcopy _].
  - reflexivity.
  - vm_compute. split; reflexivity.
  - rewrite Hcopy. vm_compute. reflexivity.
Defined.

Lemma nothing_before_Init_witness :
  ILI9341_Driver.Clear ILI9341_Driver.statics = ILI9341_Driver.statics ∧
  ILI9341_Driver.flip_mode
    (ILI9341_Driver.SetFlipMode true ILI9341_Driver.statics) = true.
Proof.
  destruct (ILI9341_DriverEffects.nothing_before_Init (Ptr 0 0) [] true
              ILI9341_Driver.statics) as (Hclear & _ & _ & _ & Hflip & _).
  - reflexivity.
  - split; [exact Hclear | exact Hflip].
Defined.

Lemma flip_mode_reaches_display_witness :
  ILI9341_Driver.last_rotation
    (ILI9341_Driver.tft
       (ILI9341_Driver.Init
          (ILI9341_Driver.SetFlipMode true ILI9341_Driver.statics)))
  = Some 2.
Proof.
  destruct (ILI9341_DriverEffects.flip_mode_reaches_display true
              ILI9341_Driver.statics) as [Hbefore _].
  destruct Hbefore as [Hrot _]; [reflexivity|]. exact Hrot.
Defined.

Lemma tearing_free_witness :
  (@FrameBuffer.writeable_frame display.pool_params
     (display.frame_buffer Scenario.two_pages_sent)).1 = Some (Ptr 1 0) ∧
  PagedDisplayDriver.frame_ (display.driver Scenario.two_pages_sent)
  = Some (Ptr 0 256) ∧
  slot (Ptr 1 0) ≠ slot (Ptr 0 256).
Proof.
  destruct (@displaySafety.tearing_free Teensy41 _ ILI9341_Driver.driver
              ltac:(simpl; lia) ltac:(vm_compute; split; reflexivity)
              1 [display.DoFrame true (Scenario.fill 0); display.DoUpdate;
                 display.DoUpdate; display.DoUpdate]
              Scenario.power_on Scenario.two_pages_sent (Ptr 0 256))
    as [Hfree _].
  - vm_compute. reflexivity.
  - vm_compute. reflexivity.
  - split; [vm_compute; reflexivity|]. split; [vm_compute; reflexivity|].
    apply Hfree. vm_compute. reflexivity.
Defined.

Lemma streaming_pointer_in_bounds_witness :
  PagedDisplayDriver.frame_ (display.driver Scenario.last_page_due)
  = Some (Ptr 0 896) ∧
  0 <= offset (Ptr 0 896) ∧ offset (Ptr 0 896) + 128 <= 8 * 128.
Proof.
  destruct (@displaySafety.streaming_pointer_in_bounds Teensy41 _
              ILI9341_Driver.driver
              ltac:(simpl; lia) ltac:(vm_compute; split; reflexivity)
              1 (display.DoFrame true (Scenario.fill 0)
                 :: replicate 8 display.DoUpdate)
              Scenario.power_on Scenario.last_page_due (Ptr 0 896))
    as (_ & _ & Hlow & Hhigh).
  - vm_compute. discriminate.
  - vm_compute. reflexivity.
  - vm_compute. reflexivity.
  - split; [vm_compute; reflexivity|]. split; [exact Hlow | exact Hhigh].
Defined.


Lemma frame_streamed_in_order_witness :
  let st0 := Scenario.from_now Scenario.one_queued in
  let st := @display.Updates Teensy41 _ Scenario.counted_ILI9341 9 st0 in
  (display.device st0).2 = 0 ∧ (display.device st).2 = 8 ∧
  (display.device st).1
  = ILI9341_Driver.send_frame (Ptr 0 0)
      (FrameBuffer.frames_ (display.frame_buffer Scenario.one_queued))
      (display.device Scenario.one_queued) ∧
  PagedDisplayDriver.frame_ (display.driver st) = None ∧
  fst <$> sent_pages (display.since (display.trace st0) st)
  = [7; 6; 5; 4; 3; 2; 1; 0].
Proof.
  intros st0 st.
  destruct (@displaySafety.frame_streamed_in_order Teensy41 _
              Scenario.counted_ILI9341
              ltac:(vm_compute; split; reflexivity)
              ltac:(vm_compute; discriminate)
              (λ s, ILI9341_Driver.display_initialized s.1 = true))
    with (st := st0) as (Hdev & _ & Hsent & Hidle & _).
  - intros s index data mem Hready Hindex.
    change (@SendPage _ Scenario.counted_ILI9341 index data mem s)
      with (let '(accepted, s') :=
              ILI9341_Driver.SendPage index data mem s.1 in
            (accepted, (s', s.2 + 1))).
    rewrite ILI9341_DriverEffects.SendPage_accepted
      by (exact Hready || exact (proj2 Hindex)).
    eexists. split; reflexivity.
  - reflexivity.
  - reflexivity.
  - reflexivity.
  - split; [reflexivity|].
    split; [refine (eq_trans (f_equal snd Hdev) _); vm_compute; reflexivity|].
    split; [refine (eq_trans (f_equal fst Hdev) _); vm_compute; reflexivity|].
    split; [exact Hidle|].
    refine (eq_trans (f_equal (fmap fst) Hsent) _).
    vm_compute. reflexivity.
Defined.

Lemma loop_never_underflows_witness :
  match @Main.loops Teensy41 _ ILI9341_Driver.driver 1 Scenario.draw_ball
          [10; 33; 40; 66] (Main.setup Scenario.main_power_on) with
  | Some st =>
      0 <= FrameBuffer.readable_count_ (display.frame_buffer (Main.screen st))
        <= 2
  | None => False
  end.
Proof.
  destruct (@Main.loops Teensy41 _ ILI9341_Driver.driver 1 Scenario.draw_ball
              [10; 33; 40; 66] (Main.setup Scenario.main_power_on))
    as [st|] eqn:Hrun.
  - exact (@FrameBuffer.ring_count _ _
             (@MainFacts.loop_never_underflows Teensy41 _
                ILI9341_Driver.driver
                ltac:(simpl; lia) ltac:(vm_compute; split; reflexivity)
                1 Scenario.draw_ball [10; 33; 40; 66] Scenario.power_on st
                Hrun)).
  - vm_compute in Hrun. discriminate Hrun.
Defined.

Lemma full_pool_is_final_witness :
  match @Main.loops Teensy41 _ ILI9341_Driver.driver 5 Scenario.draw_ball
          [1; 2; 3] Scenario.main_pool_full with
  | Some st => Main.frame_count st = 0
  | None => False
  end.
Proof.
  destruct (@Main.loops Teensy41 _ ILI9341_Driver.driver 5 Scenario.draw_ball
              [1; 2; 3] Scenario.main_pool_full) as [st|] eqn:Hrun.
  - destruct (@MainFacts.full_pool_is_final Teensy41 _ ILI9341_Driver.driver
                5 Scenario.draw_ball [1; 2; 3] Scenario.main_pool_full st)
      as (_ & Hcount & _).
    + vm_compute. reflexivity.
    + exact Hrun.
    + exact Hcount.
  - vm_compute in Hrun. discriminate Hrun.
Defined.

Lemma two_redraws_fill_pool_witness :
  ∃ st, @Main.loops Teensy41 _ ILI9341_Driver.driver 1 Scenario.draw_ball
          [33; 66] (Main.setup Scenario.main_power_on) = Some st ∧
        @Main.loop Teensy41 _ ILI9341_Driver.driver 1000 Scenario.draw_ball
          99 st = None.
Proof.
  destruct (@MainFacts.two_redraws_fill_pool Teensy41 _ ILI9341_Driver.driver
              ltac:(vm_compute; split; reflexivity)
              0 Scenario.draw_ball 33 66 Scenario.power_on)
    as (st & Hrun & _ & _ & Hwait).
  - vm_compute. discriminate.
  - vm_compute. discriminate.
  - vm_compute. discriminate.
  - exists st. split; [exact Hrun|]. apply Hwait. vm_compute. discriminate.
Defined.

(** ** The DAC8568 sketches: frames and sweeps *)

Module DAC8568Facts.
Import DAC8568.

(** Linear arithmetic with division and remainder by constants. *)
Ltac divlia := Z.div_mod_to_equations; lia.

(** An OR of a shifted value with a value below the shift is a sum. *)
Lemma lor_disjoint (a b n : Z) :
  0 <= n → 0 <= b < 2 ^ n → Z.lor (a * 2 ^ n) b = a * 2 ^ n + b.
Proof.
  intros Hn Hb.
  assert (Hland : Z.land (a * 2 ^ n) b = 0).
  { apply Z.bits_inj'. intros i Hi. rewrite Z.land_spec, Z.bits_0.
    destruct (Z.lt_ge_cases i n) as [Hlow | Hhigh].
    - now rewrite Z.mul_pow2_bits_low.
    - destruct (Z.eq_dec b 0) as [-> | Hnz].
      + now rewrite Z.bits_0, andb_false_r.
      + rewrite (Z.bits_above_log2 b i), andb_false_r; [reflexivity | lia |].
        apply Z.log2_lt_pow2; [lia|].
        pose proof (Z.pow_le_mono_r 2 n i ltac:(lia) Hhigh). lia. }
  rewrite <- (Z.lxor_lor _ _ Hland). symmetry.
  now apply Z.add_nocarry_lxor.
Qed.

Lemma byte_of (w : Z) (n : Z) :
  0 <= n → Z.land (Z.shiftr w n) 255 = (w / 2 ^ n) mod 256.
Proof.
  intros Hn. rewrite Z.shiftr_div_pow2 by exact Hn.
  change 255 with (Z.ones 8). now rewrite Z.land_ones by lia.
Qed.

Lemma word_bytes_arith (w : Z) :
  word_bytes w
  = [(w / 16777216) mod 256; (w / 65536) mod 256; (w / 256) mod 256;
     w mod 256].
Proof.
  unfold word_bytes. rewrite !byte_of by lia.
  replace (Z.land w 255) with (w mod 256).
  - reflexivity.
  - change 255 with (Z.ones 8). now rewrite Z.land_ones by lia.
Qed.

Lemma message_sum (command address data : Z) :
  0 <= command < 16 → 0 <= address < 16 → 0 <= data < 65536 →
  message command address data
  = command * 268435456 + address * 16777216 + data * 256.
Proof.
  intros Hc Ha Hd. unfold message, uint32.
  rewrite !Z.shiftl_mul_pow2 by lia.
  change (2 ^ 28) with 268435456. change (2 ^ 24) with 16777216.
  change (2 ^ 8) with 256. change (2 ^ 32) with 4294967296.
  rewrite !Z.mod_small by lia.
  replace (command * 268435456) with (command * 2 ^ 28) by lia.
  rewrite (lor_disjoint command (address * 16777216) 28) by lia.
  replace (command * 2 ^ 28 + address * 16777216)
    with ((command * 16 + address) * 2 ^ 24) by lia.
  rewrite (lor_disjoint (command * 16 + address) (data * 256) 24) by lia.
  lia.
Qed.

Lemma word_sum (cmd addr data : Z) :
  0 <= cmd < 256 → 0 <= addr < 16 → 0 <= data < 65536 →
  word cmd addr data = cmd * 16777216 + addr * 1048576 + data * 16.
Proof.
  intros Hc Ha Hd. unfold word, uint32.
  rewrite !Z.shiftl_mul_pow2 by lia.
  change (2 ^ 24) with 16777216. change (2 ^ 20) with 1048576.
  change (2 ^ 4) with 16. change (2 ^ 32) with 4294967296.
  rewrite !Z.mod_small by lia.
  replace (cmd * 16777216) with (cmd * 2 ^ 24) by lia.
  rewrite (lor_disjoint cmd (addr * 1048576) 24) by lia.
  replace (cmd * 2 ^ 24 + addr * 1048576)
    with ((cmd * 16 + addr) * 2 ^ 20) by lia.
  rewrite (lor_disjoint (cmd * 16 + addr) (data * 16) 20) by lia.
  lia.
Qed.

Lemma dacWriteCommand_bytes (command address data : Z) :
  0 <= command < 16 → 0 <= address < 16 → 0 <= data < 65536 →
  dacWriteCommand command address data
  = [beginTransaction; chip_select false; transfer (16 * command + address);
     transfer (data / 256); transfer (data mod 256); transfer 0;
     chip_select true; endTransaction].
Proof.
  intros Hc Ha Hd. unfold dacWriteCommand, send_word.
  rewrite word_bytes_arith, message_sum by assumption.
  set (m := command * 268435456 + address * 16777216 + data * 256).
  replace ((m / 16777216) mod 256) with (16 * command + address)
    by (subst m; divlia).
  replace ((m / 65536) mod 256) with (data / 256) by (subst m; divlia).
  replace ((m / 256) mod 256) with (data mod 256) by (subst m; divlia).
  replace (m mod 256) with 0 by (subst m; divlia).
  reflexivity.
Qed.

Lemma ocSend_bytes (cmd addr data : Z) :
  0 <= cmd < 256 → 0 <= addr < 16 → 0 <= data < 65536 →
  ocSend cmd addr data
  = [beginTransaction; chip_select false; transfer cmd;
     transfer (16 * addr + data / 4096); transfer ((data / 16) mod 256);
     transfer (16 * (data mod 16));
     chip_select true; endTransaction].
Proof.
  intros Hc Ha Hd. unfold ocSend, send_word.
  rewrite word_bytes_arith, word_sum by assumption.
  set (w := cmd * 16777216 + addr * 1048576 + data * 16).
  replace ((w / 16777216) mod 256) with cmd by (subst w; divlia).
  replace ((w / 65536) mod 256) with (16 * addr + data / 4096)
    by (subst w; divlia).
  replace ((w / 256) mod 256) with ((data / 16) mod 256)
    by (subst w; divlia).
  replace (w mod 256) with (16 * (data mod 16)) by (subst w; divlia).
  reflexivity.
Qed.

(** X17.  The frame of [dacWriteCommand].  For a 4-bit command, a 4-bit
    address and 16 bits of data the four bytes on the bus are
    [16 * command + address], the high and the low byte of [data], and 0,
    between chip select going low and going high; the three fields can be
    read back from the frame. *)
Theorem dacWriteCommand_frame (command address data : Z) :
  0 <= command < 16 → 0 <= address < 16 → 0 <= data < 65536 →
  dacWriteCommand command address data
  = [beginTransaction; chip_select false; transfer (16 * command + address);
     transfer (data / 256); transfer (data mod 256); transfer 0;
     chip_select true; endTransaction] ∧
  (16 * command + address) / 16 = command ∧
  (16 * command + address) mod 16 = address ∧
  256 * (data / 256) + data mod 256 = data.
Proof.
  intros Hc Ha Hd. split; [now apply dacWriteCommand_bytes | divlia].
Qed.

(** X18.  The frame of [ocSend].  For an 8-bit command, a 4-bit address
    and 16 bits of data the four bytes on the bus are the command, the
    address above the top four data bits, the middle eight data bits, and
    the low four data bits above four zero bits; the three fields can be
    read back from the frame. *)
Theorem ocSend_frame (cmd addr data : Z) :
  0 <= cmd < 256 → 0 <= addr < 16 → 0 <= data < 65536 →
  let b1 := 16 * addr + data / 4096 in
  let b2 := (data / 16) mod 256 in
  let b3 := 16 * (data mod 16) in
  ocSend cmd addr data
  = [beginTransaction; chip_select false; transfer cmd; transfer b1;
     transfer b2; transfer b3; chip_select true; endTransaction] ∧
  b1 / 16 = addr ∧ 4096 * (b1 mod 16) + 16 * b2 + b3 / 16 = data.
Proof.
  intros Hc Ha Hd b1 b2 b3. subst b1 b2 b3.
  split; [now apply ocSend_bytes | divlia].
Qed.

(** X19.  The two sketches do not speak the same protocol: the word of
    [dacWriteCommand] is the word of [ocSend] shifted left by four bits, so
    for the same command, address and data the two put the same frame on
    the bus only when all three are 0. *)
Theorem frame_layouts_differ (command address data : Z) :
  0 <= command < 16 → 0 <= address < 16 → 0 <= data < 65536 →
  message command address data = 16 * word command address data ∧
  (dacWriteCommand command address data = ocSend command address data
   ↔ command = 0 ∧ address = 0 ∧ data = 0).
Proof.
  intros Hc Ha Hd.
  rewrite message_sum, word_sum by (assumption || lia).
  split; [lia|]. split.
  - rewrite dacWriteCommand_bytes by assumption.
    rewrite ocSend_bytes by (assumption || lia).
    intros Heq. injection Heq as H0 H1 H2 H3. divlia.
  - intros (-> & -> & ->). reflexivity.
Qed.

(** X20.  [setChannel] checks its channel: for a channel above 7 nothing
    at all reaches the bus; for channel 0 to 7 one frame goes out whose
    first byte is [0x30 + channel] (write and update that channel),
    followed by the high byte of the value, its low byte, and 0. *)
Theorem setChannel_frame (channel value : Z) :
  (7 < channel → setChannel channel value = []) ∧
  (0 <= channel <= 7 → 0 <= value < 65536 →
   setChannel channel value
   = [beginTransaction; chip_select false; transfer (48 + channel);
      transfer (value / 256); transfer (value mod 256); transfer 0;
      chip_select true; endTransaction]).
Proof.
  unfold setChannel. split.
  - intros Hhigh.
    replace (channel >? 7) with true; [reflexivity|].
    symmetry. rewrite Z.gtb_ltb. now apply Z.ltb_lt.
  - intros Hch Hv.
    replace (channel >? 7) with false
      by (symmetry; rewrite Z.gtb_ltb; apply Z.ltb_ge; lia).
    unfold DAC8568_CMD_WRITE_UPDATE.
    rewrite dacWriteCommand_bytes by lia. reflexivity.
Qed.

Lemma uint16_range (z : Z) : 0 <= uint16 z < 65536.
Proof. unfold uint16. apply Z.mod_pos_bound. reflexivity. Qed.

Lemma sweep_channel_spins (fuel : nat) (ch val : Z) :
  0 <= val < 65536 → sweep_channel fuel ch val = None.
Proof.
  revert val. induction fuel as [|fuel IH]; intros val Hval; simpl;
    [reflexivity|].
  replace (val <=? 65535) with true by (symmetry; apply Z.leb_le; lia).
  now rewrite IH by apply uint16_range.
Qed.

Lemma sweep_up_spins (fuel : nat) (val : Z) :
  0 <= val < 65536 → sweep_up fuel val = None.
Proof.
  revert val. induction fuel as [|fuel IH]; intros val Hval; simpl;
    [reflexivity|].
  replace (val <=? 65535) with true by (symmetry; apply Z.leb_le; lia).
  now rewrite IH by apply uint16_range.
Qed.

Lemma sweep_down_spins (fuel : nat) (val : Z) :
  0 <= val < 65536 → val mod 2 = 1 → sweep_down fuel val = None.
Proof.
  revert val. induction fuel as [|fuel IH]; intros val Hval Hodd; simpl;
    [reflexivity|].
  replace (val >? 0) with true
    by (symmetry; rewrite Z.gtb_ltb; apply Z.ltb_lt; divlia).
  rewrite IH; [reflexivity | apply uint16_range |].
  unfold uint16. change (2 ^ 16) with 65536. divlia.
Qed.

(** X21.  The sweeps never end.  A [uint16_t] is always [<= 65535], so the
    up-sweeps of [testIndividualChannels] and [testAllChannelsSweep] go
    round and round whatever value they start from; the down-sweep steps
    from 65535 through odd values only and so never reaches 0.  Neither
    test function ever returns. *)
Theorem sweeps_never_end (fuel : nat) :
  (∀ ch val, 0 <= val < 65536 → sweep_channel fuel ch val = None) ∧
  (∀ val, 0 <= val < 65536 → sweep_up fuel val = None) ∧
  (∀ val, 0 <= val < 65536 → val mod 2 = 1 → sweep_down fuel val = None) ∧
  testIndividualChannels fuel = None ∧
  testAllChannelsSweep fuel = None.
Proof.
  split; [intros ch val; apply sweep_channel_spins|].
  split; [intros val; apply sweep_up_spins|].
  split; [intros val; apply sweep_down_spins|].
  split.
  - unfold testIndividualChannels.
    rewrite (seqZ_cons 0 8) by lia. simpl test_channels.
    now rewrite sweep_channel_spins by lia.
  - unfold testAllChannelsSweep. now rewrite sweep_up_spins by lia.
Qed.

End DAC8568Facts.

Lemma dacWriteCommand_frame_witness :
  DAC8568.dacWriteCommand 3 5 43981
  = [DAC8568.beginTransaction; DAC8568.chip_select false;
     DAC8568.transfer 53;
     DAC8568.transfer 171;
     DAC8568.transfer 205;
     DAC8568.transfer 0;
     DAC8568.chip_select true; DAC8568.endTransaction].
Proof.
  refine (eq_trans (proj1 (DAC8568Facts.dacWriteCommand_frame 3 5 43981
                             _ _ _)) _); try lia.
  reflexivity.
Defined.

Lemma ocSend_frame_witness :
  DAC8568.ocSend 3 5 43981
  = [DAC8568.beginTransaction; DAC8568.chip_select false;
     DAC8568.transfer 3;
     DAC8568.transfer 90;
     DAC8568.transfer 188;
     DAC8568.transfer 208;
     DAC8568.chip_select true; DAC8568.endTransaction].
Proof.
  refine (eq_trans (proj1 (DAC8568Facts.ocSend_frame 3 5 43981 _ _ _)) _);
    try lia.
  reflexivity.
Defined.

Lemma frame_layouts_differ_witness :
  DAC8568.message 3 5 43981 = 16 * DAC8568.word 3 5 43981.
Proof.
  refine (proj1 (DAC8568Facts.frame_layouts_differ 3 5 43981 _ _ _)); lia.
Defined.

Lemma setChannel_frame_witness :
  DAC8568.setChannel 8 65535 = [].
Proof.
  refine (proj1 (DAC8568Facts.setChannel_frame 8 65535) _). lia.
Defined.

Lemma sweeps_never_end_witness :
  DAC8568.sweep_channel 1000 0 0 = None ∧
  DAC8568.sweep_down 1000 65535 = None.
Proof.
  destruct (DAC8568Facts.sweeps_never_end 1000) as (Hch & _ & Hdown & _).
  split; [apply Hch; lia | apply Hdown; [lia | reflexivity]].
Defined.
